(** * Gas Town work queue: resolver, router, batch enqueue, pause/resume,
      metadata codec, enqueue pipeline and dispatch engine.

    Shallow embedding of [internal/cmd/queue.go], [queue_enqueue.go] and
    [convoy_queue.go].  Calls to the [bd] issue store, to the file system
    and to helpers that live in other files of the package are taken as
    section variables or as explicit store-passing functions. *)

From Stdlib Require Import ZArith Ascii String List Bool Lia DecimalString DecimalZ.
From stdpp Require Import base gmap strings list.

Local Open Scope string_scope.
Local Open Scope Z_scope.

#[local] Set Default Proof Using "Type".

(** Propositional closing step that leaves unused section variables out of
    the proof term. *)
Ltac drop_unused :=
  repeat match goal with
         | x : ?T |- _ =>
             lazymatch type of T with
             | Prop => fail
             | _ => clear x
             end
         end.
Ltac prop_solve := drop_unused; tauto.

(** ** Shared data *)

(** [QueueMetadata]: the fields of the field reference table in
    [docs/design/work-queue.md].  Go [int] is modelled as [Z]. *)
Record QueueMetadata := mkQueueMetadata {
  TargetRig : string;
  Formula : string;
  Args : string;
  Vars : list string;
  EnqueuedAt : string;
  Merge : string;
  Convoy : string;
  BaseBranch : string;
  NoMerge : bool;
  Account : string;
  Agent : string;
  HookRawBead : bool;
  Owned : bool;
  Mode : string;
  DispatchFailures : Z;
  LastFailure : string
}.

(** Circuit-breaker threshold ([maxDispatchFailures = 3]). *)
Definition maxDispatchFailures : Z := 3.

Definition LabelQueued : string := "gt:queued".

(** Errors are kept symbolic: a message and, for wrapped errors, the cause. *)
Inductive error :=
| ErrMsg (msg : string)
| ErrWrap (msg : string) (cause : error).

(** Outcome of one [bd ... --json] subprocess: the command may fail, its
    output may fail to unmarshal, or it yields an array of records. *)
Inductive bdOut (A : Type) :=
| CmdFailed (e : error)
| BadJSON (e : error)
| Rows (rows : list A).
Arguments CmdFailed {A} e.
Arguments BadJSON {A} e.
Arguments Rows {A} rows.

(** ** Commands *)

(** Lines written to standard output that matter for the properties below. *)
Inductive line :=
| ItemFailed (id : string) (e : error)
| ItemNoRig (id : string)
| ItemUnchecked (id : string) (e : error)
| WouldQueue (id : string)
| Summary (ok total : nat)
| Note (msg : string).

(** A command runs in a state made of the world [W] (issue store, files)
    and of the output written so far. *)
Definition cmd (W A : Type) : Type := W * list line -> A * (W * list line).

Definition ret {W A} (a : A) : cmd W A := fun s => (a, s).
Definition bind {W A B} (c : cmd W A) (k : A -> cmd W B) : cmd W B :=
  fun s => let (a, s') := c s in k a s'.
Definition print {W} (l : line) : cmd W unit :=
  fun s => (tt, (fst s, (snd s ++ [l])%list)).
(** Run a collaborator that acts on the world only. *)
Definition call {W A} (f : W -> A * W) : cmd W A :=
  fun s => let (a, w') := f (fst s) in (a, (w', snd s)).

Notation "'let*' x ':=' c 'in' k" := (bind c (fun x => k))
  (at level 10, x name, c at level 100, k at level 200).
Notation "c ;; k" := (bind c (fun _ => k))
  (at level 100, k at level 200, right associativity).

(** ** Ready-set resolver ([queue.go]) *)
Module Resolver.

Record readyBead := mkReadyBead {
  rb_ID : string;
  rb_Description : string
}.

Record rawBead := mkRawBead {
  raw_ID : string;
  raw_Title : string;
  raw_Status : string;
  raw_Description : string
}.

Record queuedBeadInfo := mkInfo {
  ID : string;
  Title : string;
  Status : string;
  InfoTargetRig : string;
  Blocked : bool
}.

Section WithStore.

Variable ParseQueueMetadata : string -> option QueueMetadata.
(** [bd ready --label gt:queued --json --limit=0] run in a directory. *)
Variable bdReady : string -> bdOut readyBead.
(** [bd list --label=gt:queued --json --limit=0] run in a directory. *)
Variable bdList : string -> bdOut rawBead.

(** [meta != nil && meta.DispatchFailures >= maxDispatchFailures] *)
Definition circuitBroken (description : string) : bool :=
  match ParseQueueMetadata description with
  | Some meta => maxDispatchFailures <=? DispatchFailures meta
  | None => false
  end.

(** Inner loop of the first pass of [listQueuedBeads]. *)
Definition addReady (readyIDs : gset string) (b : readyBead) : gset string :=
  if circuitBroken (rb_Description b) then readyIDs
  else {[ rb_ID b ]} ∪ readyIDs.

(** One iteration of [for _, dir := range dirs] of the first pass. *)
Definition readyStep (readyIDs : gset string) (dir : string) : gset string :=
  match bdReady dir with
  | CmdFailed _ => readyIDs
  | BadJSON _ => readyIDs
  | Rows readyBeads => fold_left addReady readyBeads readyIDs
  end.

Definition collectReadyIDs (dirs : list string) : gset string :=
  fold_left readyStep dirs ∅.

(** Loop body of [listQueuedBeadsFrom]. *)
Definition fromRow (result : list queuedBeadInfo) (r : rawBead)
  : list queuedBeadInfo :=
  match ParseQueueMetadata (raw_Description r) with
  | Some meta =>
      if maxDispatchFailures <=? DispatchFailures meta then result
      else result ++ [mkInfo (raw_ID r) (raw_Title r) (raw_Status r)
                             (TargetRig meta) false]
  | None =>
      result ++ [mkInfo (raw_ID r) (raw_Title r) (raw_Status r) "" false]
  end.

Definition listQueuedBeadsFrom (dir : string)
  : error + list queuedBeadInfo :=
  match bdList dir with
  | CmdFailed e => inl e
  | BadJSON e => inl (ErrWrap "parsing queued beads" e)
  | Rows raw => inr (fold_left fromRow raw [])
  end.

(** Mutable locals of the second pass of [listQueuedBeads]. *)
Record listState := mkListState {
  ls_result : list queuedBeadInfo;
  ls_seen : gset string;
  ls_lastErr : option error;
  ls_failCount : nat
}.

Definition withBlocked (b : queuedBeadInfo) (blocked : bool) : queuedBeadInfo :=
  mkInfo (ID b) (Title b) (Status b) (InfoTargetRig b) blocked.

(** Body of [for _, b := range beads]. *)
Definition beadStep (readyIDs : gset string) (st : listState)
    (b : queuedBeadInfo) : listState :=
  if (Status b =? "hooked")%string || (Status b =? "closed")%string then st
  else if bool_decide (ID b ∈ ls_seen st) then st
  else mkListState
         (ls_result st ++ [withBlocked b (negb (bool_decide (ID b ∈ readyIDs)))])
         ({[ ID b ]} ∪ ls_seen st)
         (ls_lastErr st) (ls_failCount st).

(** Body of the second [for _, dir := range dirs]. *)
Definition dirStep (readyIDs : gset string) (st : listState) (dir : string)
  : listState :=
  match listQueuedBeadsFrom dir with
  | inl err =>
      mkListState (ls_result st) (ls_seen st) (Some err) (S (ls_failCount st))
  | inr beads => fold_left (beadStep readyIDs) beads st
  end.

Definition initListState : listState := mkListState [] ∅ None 0.

Definition listQueuedBeads (dirs : list string)
  : error + list queuedBeadInfo :=
  let readyIDs := collectReadyIDs dirs in
  let st := fold_left (dirStep readyIDs) dirs initListState in
  if (ls_failCount st =? length dirs)%nat && (0 <? ls_failCount st)%nat then
    inl (ErrWrap "all bead directories failed"
           (match ls_lastErr st with Some e => e | None => ErrMsg "" end))
  else inr (ls_result st).

(** Mutable locals of [listAllQueueLabeledBeadIDs]. *)
Record idsState := mkIdsState {
  is_ids : list string;
  is_seen : gset string;
  is_lastErr : option error;
  is_failCount : nat
}.

Definition idStep (st : idsState) (r : rawBead) : idsState :=
  if bool_decide (raw_ID r ∈ is_seen st) then st
  else mkIdsState (is_ids st ++ [raw_ID r]) ({[ raw_ID r ]} ∪ is_seen st)
                  (is_lastErr st) (is_failCount st).

Definition idsDirStep (st : idsState) (dir : string) : idsState :=
  match bdList dir with
  | CmdFailed e | BadJSON e =>
      mkIdsState (is_ids st) (is_seen st) (Some e) (S (is_failCount st))
  | Rows raw => fold_left idStep raw st
  end.

Definition listAllQueueLabeledBeadIDs (dirs : list string)
  : error + list string :=
  let st := fold_left idsDirStep dirs (mkIdsState [] ∅ None 0) in
  if (0 <? is_failCount st)%nat && (length (is_ids st) =? 0)%nat then
    inl (ErrWrap "all directories failed"
           (match is_lastErr st with Some e => e | None => ErrMsg "" end))
  else inr (is_ids st).

(** *** Properties of the resolver *)

Lemma circuitBroken_spec description :
  circuitBroken description = true <->
  exists meta, ParseQueueMetadata description = Some meta /\
               maxDispatchFailures <= DispatchFailures meta.
Proof.
  unfold circuitBroken. split.
  - destruct (ParseQueueMetadata description) as [meta|]; [|discriminate].
    intros H. exists meta. split; [reflexivity|]. now apply Z.leb_le.
  - intros (meta & -> & H). now apply Z.leb_le.
Qed.

Lemma elem_of_addReady_fold rows : forall acc id,
  id ∈ fold_left addReady rows acc <->
  id ∈ acc \/ exists rb, rb ∈ rows /\ rb_ID rb = id /\
                         circuitBroken (rb_Description rb) = false.
Proof.
  induction rows as [|rb rows IH]; intros acc id; simpl.
  - split; [auto|]. intros [H|(rb & H & _)]; [exact H|]. inversion H.
  - rewrite IH. unfold addReady at 1.
    destruct (circuitBroken (rb_Description rb)) eqn:Hcb; split.
    + intros [H|(rb' & Hin & Hid & Hok)]; [auto|].
      right. exists rb'. split; [now right | auto].
    + intros [H|(rb' & Hin & Hid & Hok)]; [auto|].
      apply elem_of_cons in Hin as [->|Hin]; [congruence|].
      right. exists rb'. auto.
    + intros [H|(rb' & Hin & Hid & Hok)].
      * apply elem_of_union in H as [H|H]; [|auto].
        apply elem_of_singleton in H. right. exists rb.
        split; [now left | auto].
      * right. exists rb'. split; [now right | auto].
    + intros [H|(rb' & Hin & Hid & Hok)].
      * left. apply elem_of_union. auto.
      * apply elem_of_cons in Hin as [->|Hin].
        -- left. apply elem_of_union. left. now apply elem_of_singleton.
        -- right. exists rb'. auto.
Qed.

Lemma elem_of_readyStep_fold dirs : forall acc id,
  id ∈ fold_left readyStep dirs acc <->
  id ∈ acc \/ exists dir rows rb,
      dir ∈ dirs /\ bdReady dir = Rows rows /\ rb ∈ rows /\
      rb_ID rb = id /\ circuitBroken (rb_Description rb) = false.
Proof.
  induction dirs as [|dir dirs IH]; intros acc id; simpl.
  - split; [auto|]. intros [H|(d & r & rb & H & _)]; [exact H|]. inversion H.
  - rewrite IH. unfold readyStep at 1. split.
    + intros [H|(d & r & rb & Hd & Hrest)].
      * destruct (bdReady dir) as [e|e|rows] eqn:Hq; auto.
        apply elem_of_addReady_fold in H as [H|(rb & Hin & Hid & Hok)]; [auto|].
        right. exists dir, rows, rb. split; [now left | auto].
      * right. exists d, r, rb. split; [now right | auto].
    + intros [H|(d & r & rb & Hd & Hq & Hin & Hid & Hok)].
      * left. destruct (bdReady dir); auto.
        apply elem_of_addReady_fold. auto.
      * apply elem_of_cons in Hd as [->|Hd].
        -- left. rewrite Hq. apply elem_of_addReady_fold. right. eauto.
        -- right. exists d, r, rb. auto.
Qed.

(** The ready subset holds exactly the identifiers returned by some ready
    query whose description is not circuit-broken. *)
Lemma collectReadyIDs_spec dirs id :
  id ∈ collectReadyIDs dirs <->
  exists dir rows rb,
    dir ∈ dirs /\ bdReady dir = Rows rows /\ rb ∈ rows /\
    rb_ID rb = id /\ circuitBroken (rb_Description rb) = false.
Proof.
  unfold collectReadyIDs. rewrite elem_of_readyStep_fold.
  split; [|auto]. intros [H|H]; [|exact H]. now apply not_elem_of_empty in H.
Qed.

(** What the second pass guarantees of every listed entry. *)
Definition listed_ok (readyIDs : gset string) (b : queuedBeadInfo) : Prop :=
  Status b <> "hooked"%string /\ Status b <> "closed"%string /\
  Blocked b = negb (bool_decide (ID b ∈ readyIDs)).

Lemma beadStep_listed readyIDs st b :
  Forall (listed_ok readyIDs) (ls_result st) ->
  Forall (listed_ok readyIDs) (ls_result (beadStep readyIDs st b)).
Proof.
  intros Hst. unfold beadStep.
  destruct (Status b =? "hooked")%string eqn:Hh; [exact Hst|].
  destruct (Status b =? "closed")%string eqn:Hc; [exact Hst|].
  simpl. destruct (bool_decide (ID b ∈ ls_seen st)); [exact Hst|].
  simpl. apply Forall_app. split; [exact Hst|].
  constructor; [|constructor].
  unfold listed_ok. simpl.
  apply String.eqb_neq in Hh. apply String.eqb_neq in Hc. auto.
Qed.

Lemma beadStep_fold_listed readyIDs beads : forall st,
  Forall (listed_ok readyIDs) (ls_result st) ->
  Forall (listed_ok readyIDs) (ls_result (fold_left (beadStep readyIDs) beads st)).
Proof.
  induction beads as [|b beads IH]; intros st Hst; simpl; [exact Hst|].
  apply IH. now apply beadStep_listed.
Qed.

Lemma dirStep_fold_listed readyIDs dirs : forall st,
  Forall (listed_ok readyIDs) (ls_result st) ->
  Forall (listed_ok readyIDs) (ls_result (fold_left (dirStep readyIDs) dirs st)).
Proof.
  induction dirs as [|dir dirs IH]; intros st Hst; simpl; [exact Hst|].
  apply IH. unfold dirStep.
  destruct (listQueuedBeadsFrom dir) as [e|beads]; simpl; [exact Hst|].
  now apply beadStep_fold_listed.
Qed.

Lemma listQueuedBeads_inr dirs result :
  listQueuedBeads dirs = inr result ->
  result = ls_result (fold_left (dirStep (collectReadyIDs dirs)) dirs initListState).
Proof.
  unfold listQueuedBeads. cbv zeta.
  destruct (_ && _); [discriminate|]. now intros [= <-].
Qed.

(** Failed directories only touch the error bookkeeping. *)
Definition dirFails (dir : string) : bool :=
  match listQueuedBeadsFrom dir with inl _ => true | inr _ => false end.

Lemma beadStep_fold_failCount readyIDs beads : forall st,
  ls_failCount (fold_left (beadStep readyIDs) beads st) = ls_failCount st.
Proof.
  induction beads as [|b beads IH]; intros st; simpl; [reflexivity|].
  rewrite IH. unfold beadStep.
  destruct (_ || _); [reflexivity|].
  destruct (bool_decide _); reflexivity.
Qed.

Lemma dirStep_fold_failCount readyIDs dirs : forall st,
  ls_failCount (fold_left (dirStep readyIDs) dirs st) =
  (ls_failCount st + length (filter (fun d => dirFails d = true) dirs))%nat.
Proof.
  induction dirs as [|dir dirs IH]; intros st; simpl; [lia|].
  rewrite IH. unfold dirStep, dirFails.
  rewrite filter_cons.
  destruct (listQueuedBeadsFrom dir) as [e|beads]; simpl.
  - destruct (decide (true = true)); [simpl; lia | congruence].
  - rewrite beadStep_fold_failCount.
    destruct (decide (false = true)); [congruence | lia].
Qed.

Lemma filter_length_all {A} (P : A -> Prop) `{forall x, Decision (P x)} (l : list A) :
  length (filter P l) = length l <-> Forall P l.
Proof.
  induction l as [|x l IH]; simpl.
  - split; [constructor | reflexivity].
  - rewrite filter_cons. destruct (decide (P x)) as [Hx|Hx]; simpl.
    + split.
      * intros Hlen. constructor; [exact Hx|]. apply IH. lia.
      * intros Hall. inversion Hall; subst. f_equal. now apply IH.
    + split.
      * intros Hlen. pose proof (length_filter P l). lia.
      * intros Hall. inversion Hall; subst. contradiction.
Qed.

(** The listing and the seen-set evolve independently of the error
    bookkeeping: they are a function of the successful queries alone. *)
Definition listing (st : listState) : list queuedBeadInfo * gset string :=
  (ls_result st, ls_seen st).

Definition beadStepL (readyIDs : gset string)
    (acc : list queuedBeadInfo * gset string) (b : queuedBeadInfo) :=
  if (Status b =? "hooked")%string || (Status b =? "closed")%string then acc
  else if bool_decide (ID b ∈ snd acc) then acc
  else ((fst acc ++ [withBlocked b (negb (bool_decide (ID b ∈ readyIDs)))])%list,
        {[ ID b ]} ∪ snd acc).

Definition dirStepL (readyIDs : gset string)
    (acc : list queuedBeadInfo * gset string) (dir : string) :=
  match listQueuedBeadsFrom dir with
  | inl _ => acc
  | inr beads => fold_left (beadStepL readyIDs) beads acc
  end.

Lemma listing_beadStep_fold readyIDs beads : forall st,
  listing (fold_left (beadStep readyIDs) beads st) =
  fold_left (beadStepL readyIDs) beads (listing st).
Proof.
  induction beads as [|b beads IH]; intros st; simpl; [reflexivity|].
  rewrite IH. f_equal. unfold beadStep, beadStepL, listing. simpl.
  destruct (_ || _); [reflexivity|].
  destruct (bool_decide _); reflexivity.
Qed.

Lemma listing_dirStep_fold readyIDs dirs : forall st,
  listing (fold_left (dirStep readyIDs) dirs st) =
  fold_left (dirStepL readyIDs) dirs (listing st).
Proof.
  induction dirs as [|dir dirs IH]; intros st; simpl; [reflexivity|].
  rewrite IH. f_equal. unfold dirStep, dirStepL.
  destruct (listQueuedBeadsFrom dir) as [e|beads]; [reflexivity|].
  apply listing_beadStep_fold.
Qed.

Lemma dirStepL_fold_skips_failed readyIDs dirs : forall acc,
  fold_left (dirStepL readyIDs) dirs acc =
  fold_left (dirStepL readyIDs) (filter (fun d => dirFails d = false) dirs) acc.
Proof.
  induction dirs as [|dir dirs IH]; intros acc; simpl; [reflexivity|].
  rewrite filter_cons.
  destruct (decide (dirFails dir = false)) as [Hf|Hf]; simpl.
  - apply IH.
  - rewrite <- IH. f_equal. unfold dirStepL, dirFails in *.
    destruct (listQueuedBeadsFrom dir); congruence.
Qed.

(** The listing produced from [dirs] is the listing produced from the
    directories whose query succeeded. *)
Lemma dirStep_fold_partial readyIDs dirs :
  ls_result (fold_left (dirStep readyIDs) dirs initListState) =
  ls_result (fold_left (dirStep readyIDs)
               (filter (fun d => dirFails d = false) dirs) initListState).
Proof.
  change (fst (listing (fold_left (dirStep readyIDs) dirs initListState)) =
          fst (listing (fold_left (dirStep readyIDs)
               (filter (fun d => dirFails d = false) dirs) initListState))).
  rewrite !listing_dirStep_fold. now rewrite dirStepL_fold_skips_failed.
Qed.

(** Every listed entry stems from a row of a successful labeled-set query. *)
Definition fromStore (dirs : list string) (b : queuedBeadInfo) : Prop :=
  exists dir raw r,
    dir ∈ dirs /\ bdList dir = Rows raw /\ r ∈ raw /\
    ID b = raw_ID r /\ Title b = raw_Title r /\ Status b = raw_Status r /\
    circuitBroken (raw_Description r) = false.

Lemma fromRow_fold_origin raw : forall acc b,
  b ∈ fold_left fromRow raw acc ->
  b ∈ acc \/ exists r, r ∈ raw /\ ID b = raw_ID r /\ Title b = raw_Title r /\
                       Status b = raw_Status r /\
                       circuitBroken (raw_Description r) = false.
Proof.
  induction raw as [|r raw IH]; intros acc b; simpl; [auto|].
  intros Hb. apply IH in Hb as [Hb|(r' & Hin & Hrest)].
  - unfold fromRow in Hb.
    destruct (ParseQueueMetadata (raw_Description r)) as [meta|] eqn:Hp.
    + destruct (maxDispatchFailures <=? DispatchFailures meta) eqn:Hcb; [auto|].
      apply elem_of_app in Hb as [Hb|Hb]; [auto|].
      apply list_elem_of_singleton in Hb. subst b. right. exists r.
      split; [now left|]. simpl. unfold circuitBroken. rewrite Hp. auto.
    + apply elem_of_app in Hb as [Hb|Hb]; [auto|].
      apply list_elem_of_singleton in Hb. subst b. right. exists r.
      split; [now left|]. simpl. unfold circuitBroken. rewrite Hp. auto.
  - right. exists r'. split; [now right | exact Hrest].
Qed.

Lemma beadStep_fold_origin readyIDs (P : queuedBeadInfo -> Prop) beads :
  (forall b, b ∈ beads -> P b) ->
  (forall b blocked, P b -> P (withBlocked b blocked)) ->
  forall st, Forall P (ls_result st) ->
  Forall P (ls_result (fold_left (beadStep readyIDs) beads st)).
Proof.
  intros Hbeads Hwb. induction beads as [|b beads IH]; intros st Hst; simpl;
    [exact Hst|].
  apply IH.
  - intros b' Hb'. apply Hbeads. now right.
  - unfold beadStep. destruct (_ || _); [exact Hst|].
    destruct (bool_decide _); [exact Hst|]. simpl.
    apply Forall_app. split; [exact Hst|].
    constructor; [|constructor]. apply Hwb, Hbeads. now left.
Qed.

Lemma dirStep_fold_origin readyIDs all dirs :
  (forall d, d ∈ dirs -> d ∈ all) ->
  forall st, Forall (fromStore all) (ls_result st) ->
  Forall (fromStore all) (ls_result (fold_left (dirStep readyIDs) dirs st)).
Proof.
  induction dirs as [|dir dirs IH]; intros Hsub st Hst; simpl; [exact Hst|].
  apply IH; [intros d Hd; apply Hsub; now right|].
  unfold dirStep. destruct (listQueuedBeadsFrom dir) as [e|beads] eqn:Hq;
    [exact Hst|].
  apply beadStep_fold_origin; [| |exact Hst].
  - intros b Hb. unfold listQueuedBeadsFrom in Hq.
    destruct (bdList dir) as [e|e|raw] eqn:Hl; try discriminate.
    injection Hq as <-.
    apply fromRow_fold_origin in Hb as [Hb|(r & Hin & Hrest)];
      [inversion Hb|].
    exists dir, raw, r. split; [apply Hsub; now left|]. auto.
  - intros b blocked (d & raw & r & H). exists d, raw, r. exact H.
Qed.

(** ** C1: the ready subset holds the identifiers of the ready rows that
    are not circuit-broken; no listed entry is hooked or closed; and the
    [Blocked] field of every listed entry is the negation of membership in
    the ready subset. *)
Theorem listQueuedBeads_ready_and_blocked dirs result :
  listQueuedBeads dirs = inr result ->
  (forall id, id ∈ collectReadyIDs dirs <->
     exists dir rows rb,
       dir ∈ dirs /\ bdReady dir = Rows rows /\ rb ∈ rows /\ rb_ID rb = id /\
       ~ (exists meta, ParseQueueMetadata (rb_Description rb) = Some meta /\
                       maxDispatchFailures <= DispatchFailures meta)) /\
  (forall b, b ∈ result ->
     Status b <> "hooked"%string /\ Status b <> "closed"%string /\
     Blocked b = negb (bool_decide (ID b ∈ collectReadyIDs dirs)) /\
     fromStore dirs b).
Proof.
  intros Hrun. apply listQueuedBeads_inr in Hrun. split.
  - intros id. rewrite collectReadyIDs_spec. split.
    + intros (dir & rows & rb & Hd & Hq & Hin & Hid & Hcb).
      exists dir, rows, rb. repeat split; auto.
      intros Hbroken. apply circuitBroken_spec in Hbroken. congruence.
    + intros (dir & rows & rb & Hd & Hq & Hin & Hid & Hcb).
      exists dir, rows, rb. repeat split; auto.
      destruct (circuitBroken (rb_Description rb)) eqn:E; [|reflexivity].
      exfalso. apply Hcb. now apply circuitBroken_spec.
  - intros b Hb. subst result.
    pose proof (dirStep_fold_listed (collectReadyIDs dirs) dirs initListState
                  (Forall_nil_2 _)) as Hok.
    pose proof (dirStep_fold_origin (collectReadyIDs dirs) dirs dirs
                  (fun d H => H) initListState (Forall_nil_2 _)) as Horig.
    rewrite Forall_forall in Hok, Horig.
    destruct (Hok b Hb) as (H1 & H2 & H3). repeat split; auto.
Qed.

Lemma listQueuedBeads_failCount dirs :
  ls_failCount (fold_left (dirStep (collectReadyIDs dirs)) dirs initListState)
  = length (filter (fun d => dirFails d = true) dirs).
Proof. now rewrite dirStep_fold_failCount. Qed.

(** The resolver reports an error exactly when at least one directory was
    queried and every labeled-set query failed. *)
Theorem listQueuedBeads_error_iff dirs :
  (exists e, listQueuedBeads dirs = inl e) <->
  dirs <> [] /\ forall dir, dir ∈ dirs -> exists e, listQueuedBeadsFrom dir = inl e.
Proof.
  unfold listQueuedBeads. cbv zeta. rewrite listQueuedBeads_failCount.
  set (nf := length (filter (fun d => dirFails d = true) dirs)).
  assert (Hall : nf = length dirs <->
                 forall dir, dir ∈ dirs -> exists e, listQueuedBeadsFrom dir = inl e).
  { unfold nf. rewrite filter_length_all, Forall_forall.
    split; intros H d Hd; specialize (H d Hd); unfold dirFails in *.
    - destruct (listQueuedBeadsFrom d) as [e|]; [eauto | discriminate].
    - destruct H as [e ->]. reflexivity. }
  destruct (nf =? length dirs)%nat eqn:E1; simpl.
  - apply Nat.eqb_eq in E1. destruct (0 <? nf)%nat eqn:E2.
    + apply Nat.ltb_lt in E2. split; [|eauto].
      intros _. split; [|now apply Hall].
      intros ->. simpl in E1. lia.
    + apply Nat.ltb_ge in E2. split; [intros [e He]; discriminate|].
      intros [Hne _]. destruct dirs; [congruence|]. simpl in E1. lia.
  - apply Nat.eqb_neq in E1. split; [intros [e He]; discriminate|].
    intros [_ H]. apply Hall in H. contradiction.
Qed.

(** With at least one successful query the resolver returns, without an
    error, the listing built from the successful directories alone. *)
Theorem listQueuedBeads_partial dirs dir beads :
  dir ∈ dirs -> listQueuedBeadsFrom dir = inr beads ->
  listQueuedBeads dirs =
  inr (ls_result (fold_left (dirStep (collectReadyIDs dirs))
                    (filter (fun d => dirFails d = false) dirs) initListState)).
Proof.
  intros Hd Hq.
  destruct (listQueuedBeads dirs) as [e|result] eqn:Hrun.
  - assert (He : exists e, listQueuedBeads dirs = inl e) by eauto.
    apply listQueuedBeads_error_iff in He as [_ He].
    destruct (He dir Hd) as [e' He']. congruence.
  - apply listQueuedBeads_inr in Hrun. subst result.
    now rewrite dirStep_fold_partial.
Qed.

(** [listAllQueueLabeledBeadIDs] fails whenever every query failed. *)
Lemma idStep_fold_failCount raw : forall st,
  is_failCount (fold_left idStep raw st) = is_failCount st.
Proof.
  induction raw as [|r raw IH]; intros st; simpl; [reflexivity|].
  rewrite IH. unfold idStep. destruct (bool_decide _); reflexivity.
Qed.

Definition idsInv (st : idsState) : Prop :=
  forall x, x ∈ is_seen st <-> x ∈ is_ids st.

Lemma idStep_inv st r : idsInv st -> idsInv (idStep st r).
Proof.
  intros Hinv. unfold idStep.
  destruct (bool_decide _); [exact Hinv|].
  intros x. simpl. rewrite elem_of_union, elem_of_singleton, elem_of_app,
    list_elem_of_singleton. specialize (Hinv x). prop_solve.
Qed.

Lemma idStep_nonempty st r : idsInv st -> is_ids (idStep st r) <> [].
Proof.
  intros Hinv. unfold idStep.
  destruct (bool_decide (raw_ID r ∈ is_seen st)) eqn:E; simpl.
  - apply bool_decide_eq_true in E. apply Hinv in E.
    intros Hnil. rewrite Hnil in E. inversion E.
  - destruct (is_ids st); discriminate.
Qed.

Lemma idStep_fold_inv raw : forall st,
  idsInv st ->
  idsInv (fold_left idStep raw st) /\
  (is_ids st <> [] \/ raw <> [] -> is_ids (fold_left idStep raw st) <> []).
Proof.
  induction raw as [|r raw IH]; intros st Hinv; simpl.
  - split; [exact Hinv|]. intros [H|H]; congruence.
  - destruct (IH (idStep st r) (idStep_inv st r Hinv)) as [H1 H2].
    split; [exact H1|]. intros _. apply H2. left. now apply idStep_nonempty.
Qed.

Definition listFails (dir : string) : bool :=
  match bdList dir with Rows _ => false | _ => true end.

Lemma idsDirStep_fold_spec dirs : forall st,
  idsInv st ->
  let st' := fold_left idsDirStep dirs st in
  idsInv st' /\
  (is_failCount st' = is_failCount st +
     length (filter (fun d => listFails d = true) dirs))%nat /\
  (is_ids st' = [] <->
   is_ids st = [] /\
   forall dir raw, dir ∈ dirs -> bdList dir = Rows raw -> raw = []).
Proof.
  induction dirs as [|dir dirs IH]; intros st Hinv; simpl.
  - split; [exact Hinv|]. split; [lia|]. split; [|prop_solve].
    intros H. split; [exact H|]. intros d raw Hd. inversion Hd.
  - rewrite filter_cons.
    destruct (decide (listFails dir = true)) as [Hf|Hf].
    + assert (Hstep : exists e, idsDirStep st dir =
                mkIdsState (is_ids st) (is_seen st) (Some e) (S (is_failCount st))).
      { unfold idsDirStep, listFails in *.
        destruct (bdList dir); [eauto | eauto | discriminate]. }
      destruct Hstep as [e ->].
      destruct (IH (mkIdsState (is_ids st) (is_seen st) (Some e)
                               (S (is_failCount st))) Hinv) as (H1 & H2 & H3).
      split; [exact H1|]. cbn [is_failCount is_ids] in *.
      split; [simpl; lia|]. rewrite H3.
      split; intros [Ha Hb]; (split; [exact Ha|]).
      * intros d raw Hd Hl. apply elem_of_cons in Hd as [->|Hd]; [|eauto].
        unfold listFails in Hf. rewrite Hl in Hf. discriminate.
      * intros d raw Hd. apply Hb. now right.
    + assert (Hstep : exists raw, bdList dir = Rows raw /\
                                  idsDirStep st dir = fold_left idStep raw st).
      { unfold idsDirStep, listFails in *.
        destruct (bdList dir); [congruence | congruence | eauto]. }
      destruct Hstep as (raw & Hq & ->).
      destruct (idStep_fold_inv raw st Hinv) as [Hinv' Hne].
      destruct (IH (fold_left idStep raw st) Hinv') as (H1 & H2 & H3).
      split; [exact H1|]. rewrite idStep_fold_failCount in H2.
      split; [exact H2|]. rewrite H3. split.
      * intros [Ha Hb].
        assert (Hst : is_ids st = [])
          by (destruct (is_ids st) eqn:E; [reflexivity|];
              exfalso; apply Hne; [left; discriminate | exact Ha]).
        assert (Hraw : raw = [])
          by (destruct raw; [reflexivity|];
              exfalso; apply Hne; [right; discriminate | exact Ha]).
        split; [exact Hst|].
        intros d raw' Hd Hl. apply elem_of_cons in Hd as [->|Hd]; [congruence|eauto].
      * intros [Ha Hb]. assert (raw = []) as -> by (apply (Hb dir); [now left|exact Hq]).
        split; [exact Ha|]. intros d raw' Hd. apply Hb. now right.
Qed.

(** ** X4: what [listAllQueueLabeledBeadIDs] does: it fails exactly when
    some query failed and the successful ones returned no row at all. *)
Theorem listAllQueueLabeledBeadIDs_error_iff dirs :
  (exists e, listAllQueueLabeledBeadIDs dirs = inl e) <->
  (exists dir, dir ∈ dirs /\ forall raw, bdList dir <> Rows raw) /\
  (forall dir raw, dir ∈ dirs -> bdList dir = Rows raw -> raw = []).
Proof.
  unfold listAllQueueLabeledBeadIDs. cbv zeta.
  assert (Hinv0 : idsInv (mkIdsState [] ∅ None 0)).
  { intros x. simpl. split; intros H; [now apply not_elem_of_empty in H | inversion H]. }
  destruct (idsDirStep_fold_spec dirs _ Hinv0) as (_ & Hfc & Hids).
  cbv zeta in Hfc, Hids. cbn [is_failCount is_ids] in Hfc, Hids.
  set (st := fold_left idsDirStep dirs _) in *.
  set (P := fun d => listFails d = true) in *.
  assert (Hfail : (0 < is_failCount st)%nat <->
                  exists dir, dir ∈ dirs /\ forall raw, bdList dir <> Rows raw).
  { rewrite Hfc. simpl. split.
    - intros Hpos. destruct (filter P dirs) as [|d l] eqn:E; [simpl in Hpos; lia|].
      assert (Hd : d ∈ filter P dirs) by (rewrite E; now left).
      apply list_elem_of_filter in Hd as [HP Hd]. exists d. split; [exact Hd|].
      intros raw Hq. unfold P, listFails in HP. rewrite Hq in HP. discriminate.
    - intros (d & Hd & Hq).
      assert (Hin : d ∈ filter P dirs).
      { apply list_elem_of_filter. split; [|exact Hd]. unfold P, listFails.
        destruct (bdList d) as [e|e|raw]; [reflexivity | reflexivity |].
        now specialize (Hq raw). }
      destruct (filter P dirs); [inversion Hin | simpl; lia]. }
  destruct (0 <? is_failCount st)%nat eqn:E1; simpl.
  - apply Nat.ltb_lt in E1. destruct (length (is_ids st) =? 0)%nat eqn:E2.
    + apply Nat.eqb_eq in E2. apply length_zero_iff_nil in E2.
      split; [|eauto]. intros _. split; [now apply Hfail|]. now apply Hids.
    + apply Nat.eqb_neq in E2. split; [intros [e He]; discriminate|].
      intros [_ H]. exfalso. apply E2. apply length_zero_iff_nil. apply Hids. auto.
  - apply Nat.ltb_ge in E1. split; [intros [e He]; discriminate|].
    intros [H _]. apply Hfail in H. lia.
Qed.

(** *** Further properties of the listing *)

(** The seen-set is the set of listed identifiers, none listed twice. *)
Definition listInv (st : listState) : Prop :=
  (forall id, id ∈ ls_seen st <-> In id (map ID (ls_result st))) /\
  NoDup (map ID (ls_result st)).

Lemma beadStep_listInv readyIDs st b :
  listInv st -> listInv (beadStep readyIDs st b).
Proof.
  intros [Hseen Hnd]. unfold beadStep.
  destruct (_ || _); [now split|].
  destruct (bool_decide (ID b ∈ ls_seen st)) eqn:E; [now split|].
  apply bool_decide_eq_false in E. split; simpl.
  - intros id. rewrite map_app, in_app_iff, elem_of_union, elem_of_singleton.
    simpl. specialize (Hseen id). split.
    + intros [->|H]; [right; now left | left; now apply Hseen].
    + intros [H|[<-|[]]]; [right; now apply Hseen | now left].
  - rewrite map_app. simpl. apply NoDup_app. split; [exact Hnd|].
    split; [|apply NoDup_singleton].
    intros id Hin Hid. apply list_elem_of_singleton in Hid. subst id.
    apply E, Hseen. now apply list_elem_of_In.
Qed.

Lemma beadStep_fold_listInv readyIDs beads : forall st,
  listInv st -> listInv (fold_left (beadStep readyIDs) beads st).
Proof.
  induction beads as [|b beads IH]; intros st Hst; simpl; [exact Hst|].
  apply IH. now apply beadStep_listInv.
Qed.

Lemma dirStep_fold_listInv readyIDs dirs : forall st,
  listInv st -> listInv (fold_left (dirStep readyIDs) dirs st).
Proof.
  induction dirs as [|dir dirs IH]; intros st Hst; simpl; [exact Hst|].
  apply IH. unfold dirStep.
  destruct (listQueuedBeadsFrom dir) as [e|beads]; [exact Hst|].
  now apply beadStep_fold_listInv.
Qed.

Lemma initListState_inv : listInv initListState.
Proof.
  split; simpl; [|constructor].
  intros id. split; [intros H; now apply not_elem_of_empty in H | intros []].
Qed.

(** ** X1: no identifier is listed twice, however many directories answer
    with the same bead. *)
Theorem listQueuedBeads_no_duplicates dirs result :
  listQueuedBeads dirs = inr result -> NoDup (map ID result).
Proof.
  intros Hrun. apply listQueuedBeads_inr in Hrun. subst result.
  apply (dirStep_fold_listInv _ dirs initListState initListState_inv).
Qed.

(** The seen-set only grows. *)
Lemma beadStep_seen_mono readyIDs st b id :
  id ∈ ls_seen st -> id ∈ ls_seen (beadStep readyIDs st b).
Proof.
  intros H. unfold beadStep. destruct (_ || _); [exact H|].
  destruct (bool_decide _); [exact H|]. simpl. apply elem_of_union. now right.
Qed.

Lemma beadStep_fold_seen_mono readyIDs beads : forall st id,
  id ∈ ls_seen st -> id ∈ ls_seen (fold_left (beadStep readyIDs) beads st).
Proof.
  induction beads as [|b beads IH]; intros st id H; simpl; [exact H|].
  apply IH. now apply beadStep_seen_mono.
Qed.

Lemma dirStep_fold_seen_mono readyIDs dirs : forall st id,
  id ∈ ls_seen st -> id ∈ ls_seen (fold_left (dirStep readyIDs) dirs st).
Proof.
  induction dirs as [|dir dirs IH]; intros st id H; simpl; [exact H|].
  apply IH. unfold dirStep.
  destruct (listQueuedBeadsFrom dir) as [e|beads]; [exact H|].
  now apply beadStep_fold_seen_mono.
Qed.

Definition pendingStatus (status : string) : Prop :=
  status <> "hooked"%string /\ status <> "closed"%string.

Lemma beadStep_fold_sees readyIDs beads : forall st b,
  In b beads -> pendingStatus (Status b) ->
  ID b ∈ ls_seen (fold_left (beadStep readyIDs) beads st).
Proof.
  induction beads as [|b0 beads IH]; intros st b Hin [Hh Hc]; [inversion Hin|].
  simpl. destruct Hin as [->|Hin]; [|now apply IH].
  apply beadStep_fold_seen_mono. unfold beadStep.
  apply String.eqb_neq in Hh, Hc. rewrite Hh, Hc. simpl.
  destruct (bool_decide (ID b ∈ ls_seen st)) eqn:E.
  - now apply bool_decide_eq_true in E.
  - simpl. apply elem_of_union. left. now apply elem_of_singleton.
Qed.

Lemma fromRow_fold_keeps raw : forall acc b,
  In b acc -> In b (fold_left fromRow raw acc).
Proof.
  induction raw as [|r raw IH]; intros acc b Hb; simpl; [exact Hb|].
  apply IH. unfold fromRow.
  destruct (ParseQueueMetadata (raw_Description r)) as [meta|].
  - destruct (_ <=? _); [exact Hb|]. apply in_or_app. now left.
  - apply in_or_app. now left.
Qed.

Lemma fromRow_fold_lists raw : forall acc r,
  In r raw -> circuitBroken (raw_Description r) = false ->
  exists b, In b (fold_left fromRow raw acc) /\
            ID b = raw_ID r /\ Status b = raw_Status r.
Proof.
  induction raw as [|r0 raw IH]; intros acc r Hin Hok; [inversion Hin|].
  simpl. destruct Hin as [->|Hin]; [|now apply IH].
  unfold circuitBroken in Hok. unfold fromRow at 2.
  destruct (ParseQueueMetadata (raw_Description r)) as [meta|].
  - rewrite Hok. eexists. split; [apply fromRow_fold_keeps, in_or_app; right; now left|].
    split; reflexivity.
  - eexists. split; [apply fromRow_fold_keeps, in_or_app; right; now left|].
    split; reflexivity.
Qed.

Lemma dirStep_fold_sees readyIDs dirs : forall st dir raw r,
  In dir dirs -> bdList dir = Rows raw -> In r raw ->
  pendingStatus (raw_Status r) ->
  circuitBroken (raw_Description r) = false ->
  raw_ID r ∈ ls_seen (fold_left (dirStep readyIDs) dirs st).
Proof.
  induction dirs as [|d dirs IH]; intros st dir raw r Hd Hq Hr Hp Hok;
    [inversion Hd|].
  simpl. destruct Hd as [->|Hd]; [|now apply (IH _ dir raw)].
  apply dirStep_fold_seen_mono. unfold dirStep, listQueuedBeadsFrom.
  rewrite Hq.
  destruct (fromRow_fold_lists raw [] r Hr Hok) as (b & Hb & Hid & Hst).
  rewrite <- Hid. apply beadStep_fold_sees; [exact Hb|]. now rewrite Hst.
Qed.

(** ** X2: every row of a successful query that is neither hooked, closed
    nor circuit-broken has its identifier in the listing. *)
Theorem listQueuedBeads_lists_every_pending_row dirs result dir raw r :
  listQueuedBeads dirs = inr result ->
  In dir dirs -> bdList dir = Rows raw -> In r raw ->
  raw_Status r <> "hooked"%string -> raw_Status r <> "closed"%string ->
  circuitBroken (raw_Description r) = false ->
  In (raw_ID r) (map ID result).
Proof.
  intros Hrun Hd Hq Hr Hh Hc Hok.
  apply listQueuedBeads_inr in Hrun. subst result.
  apply (dirStep_fold_listInv _ dirs initListState initListState_inv).
  now apply (dirStep_fold_sees _ dirs initListState dir raw r).
Qed.

(** ** X3: failure policy of [listQueuedBeads]: an error exactly when
    some directory was queried and every query failed; and as soon as one
    directory answers, the listing built from the directories that
    answered, as if the failing ones had not been searched. *)
Theorem listQueuedBeads_failure_policy dirs :
  ((exists e, listQueuedBeads dirs = inl e) <->
   dirs <> [] /\ Forall (fun d => dirFails d = true) dirs) /\
  (Exists (fun d => dirFails d = false) dirs ->
   listQueuedBeads dirs =
   inr (ls_result (fold_left (dirStep (collectReadyIDs dirs))
                     (List.filter (fun d => negb (dirFails d)) dirs)
                     initListState))).
Proof.
  assert (Hfilter : forall l : list string,
            filter (fun d => dirFails d = false) l
            = List.filter (fun d => negb (dirFails d)) l).
  { induction l as [|d l IH]; [reflexivity|].
    rewrite filter_cons. simpl. rewrite IH.
    destruct (decide (dirFails d = false)) as [E|E].
    - now rewrite E.
    - destruct (dirFails d); [reflexivity | congruence]. }
  split.
  - rewrite listQueuedBeads_error_iff, Forall_forall. unfold dirFails.
    split; intros [Hne H]; (split; [exact Hne|]); intros d Hd.
    + destruct (H d Hd) as [e ->]. reflexivity.
    + specialize (H d Hd).
      destruct (listQueuedBeadsFrom d) as [e|]; [eauto | discriminate].
  - intros Hex. apply Exists_exists in Hex as (d & Hd & Hok).
    unfold dirFails in Hok.
    destruct (listQueuedBeadsFrom d) as [e|beads] eqn:Hq; [discriminate|].
    rewrite <- Hfilter. now apply (listQueuedBeads_partial dirs d beads).
Qed.

Lemma idStep_fold_mem raw : forall st id,
  idsInv st ->
  (In id (is_ids (fold_left idStep raw st)) <->
   In id (is_ids st) \/ exists r, In r raw /\ raw_ID r = id).
Proof.
  induction raw as [|r raw IH]; intros st id Hinv; simpl.
  - split; [auto | intros [H|(r & [] & _)]; exact H].
  - rewrite (IH _ _ (idStep_inv st r Hinv)). unfold idStep at 1.
    destruct (bool_decide (raw_ID r ∈ is_seen st)) eqn:E.
    + apply bool_decide_eq_true, Hinv, list_elem_of_In in E. split.
      * intros [H|(r' & Hr' & Hid)]; [auto | right; eauto].
      * intros [H|(r' & [->|Hr'] & Hid)]; [auto | subst id; auto | right; eauto].
    + simpl. rewrite in_app_iff. simpl. split.
      * intros [[H|[<-|[]]]|(r' & Hr' & Hid)]; [auto | right; eauto | right; eauto].
      * intros [H|(r' & [->|Hr'] & Hid)]; [auto | subst id; auto | right; eauto].
Qed.

Lemma idStep_fold_nodup raw : forall st,
  idsInv st -> NoDup (is_ids st) -> NoDup (is_ids (fold_left idStep raw st)).
Proof.
  induction raw as [|r raw IH]; intros st Hinv Hnd; simpl; [exact Hnd|].
  apply IH; [now apply idStep_inv|]. unfold idStep.
  destruct (bool_decide (raw_ID r ∈ is_seen st)) eqn:E; [exact Hnd|].
  apply bool_decide_eq_false in E. simpl.
  apply NoDup_app. split; [exact Hnd|]. split; [|apply NoDup_singleton].
  intros id Hin Hid. apply list_elem_of_singleton in Hid. subst id.
  now apply E, Hinv.
Qed.

Lemma idsDirStep_fold_ids dirs : forall st,
  idsInv st -> NoDup (is_ids st) ->
  let st' := fold_left idsDirStep dirs st in
  idsInv st' /\ NoDup (is_ids st') /\
  forall id, In id (is_ids st') <->
             In id (is_ids st) \/
             exists dir raw r, In dir dirs /\ bdList dir = Rows raw /\
                               In r raw /\ raw_ID r = id.
Proof.
  induction dirs as [|dir dirs IH]; intros st Hinv Hnd; simpl.
  - split; [exact Hinv|]. split; [exact Hnd|]. intros id.
    split; [auto | intros [H|(d & raw & r & [] & _)]; exact H].
  - unfold idsDirStep at 2 4 6.
    destruct (bdList dir) as [e|e|raw] eqn:Hq.
    + destruct (IH (mkIdsState (is_ids st) (is_seen st) (Some e)
                               (S (is_failCount st))) Hinv Hnd) as (H1 & H2 & H3).
      split; [exact H1|]. split; [exact H2|]. intros id. rewrite H3. simpl.
      split; (intros [H|(d & raw & r & Hd & Hl & Hr)]; [auto|]).
      * right. exists d, raw, r. auto.
      * destruct Hd as [<-|Hd]; [congruence|]. right. exists d, raw, r. auto.
    + destruct (IH (mkIdsState (is_ids st) (is_seen st) (Some e)
                               (S (is_failCount st))) Hinv Hnd) as (H1 & H2 & H3).
      split; [exact H1|]. split; [exact H2|]. intros id. rewrite H3. simpl.
      split; (intros [H|(d & raw & r & Hd & Hl & Hr)]; [auto|]).
      * right. exists d, raw, r. auto.
      * destruct Hd as [<-|Hd]; [congruence|]. right. exists d, raw, r. auto.
    + destruct (idStep_fold_inv raw st Hinv) as [Hinv' _].
      destruct (IH (fold_left idStep raw st) Hinv'
                   (idStep_fold_nodup raw st Hinv Hnd)) as (H1 & H2 & H3).
      split; [exact H1|]. split; [exact H2|]. intros id.
      rewrite H3, (idStep_fold_mem raw st id Hinv). split.
      * intros [[H|(r & Hr & Hid)]|(d & raw' & r & Hd & Hl & Hr)]; [auto| |].
        -- right. exists dir, raw, r. auto.
        -- right. exists d, raw', r. auto.
      * intros [H|(d & raw' & r & [<-|Hd] & Hl & Hr)]; [auto| |].
        -- left. right. exists r. split; [|apply Hr].
           rewrite Hq in Hl. injection Hl as <-. apply Hr.
        -- right. exists d, raw', r. auto.
Qed.

Lemma idsInit_inv : idsInv (mkIdsState [] ∅ None 0).
Proof.
  intros x. simpl. split; intros H;
    [now apply not_elem_of_empty in H | inversion H].
Qed.

Lemma listAllQueueLabeledBeadIDs_nodup dirs ids :
  listAllQueueLabeledBeadIDs dirs = inr ids -> NoDup ids.
Proof.
  unfold listAllQueueLabeledBeadIDs. cbv zeta.
  destruct (idsDirStep_fold_ids dirs _ idsInit_inv (NoDup_nil_2 (A:=string)))
    as (_ & Hnd & _).
  cbv zeta in Hnd.
  destruct (_ && _); [discriminate|]. now intros [= <-].
Qed.

(** ** X5: what [listAllQueueLabeledBeadIDs] returns when it succeeds:
    the identifier of every row of the queries that answered, whatever the
    row's status or description, each identifier once. *)
Theorem listAllQueueLabeledBeadIDs_ids dirs ids :
  listAllQueueLabeledBeadIDs dirs = inr ids ->
  NoDup ids /\
  forall id, In id ids <->
             exists dir raw r, In dir dirs /\ bdList dir = Rows raw /\
                               In r raw /\ raw_ID r = id.
Proof.
  unfold listAllQueueLabeledBeadIDs. cbv zeta.
  destruct (idsDirStep_fold_ids dirs _ idsInit_inv (NoDup_nil_2 (A:=string)))
    as (_ & Hnd & Hmem).
  cbv zeta in Hnd, Hmem.
  destruct (_ && _); [discriminate|]. intros [= <-].
  split; [exact Hnd|]. intros id. rewrite Hmem. simpl.
  split; [intros [[]|H]; exact H | auto].
Qed.

End WithStore.

(** *** A concrete town: the root store answers, one rig store is down *)

Definition metaWithFailures (rig : string) (n : Z) : QueueMetadata :=
  mkQueueMetadata rig "mol-polecat-work" "" [] "" "" "" "" false "" ""
                  false false "" n "".

(** Descriptions are decoded by a fixed table in the examples. *)
Definition demoParse (description : string) : option QueueMetadata :=
  if (description =? "fresh")%string then Some (metaWithFailures "gastown" 0)
  else if (description =? "broken")%string then Some (metaWithFailures "gastown" 3)
  else None.

Definition demoReady (dir : string) : bdOut readyBead :=
  if (dir =? "/town")%string then
    Rows [mkReadyBead "gt-a" "fresh"; mkReadyBead "gt-b" "broken"]
  else CmdFailed (ErrMsg "exit status 1").

Definition demoList (dir : string) : bdOut rawBead :=
  if (dir =? "/town")%string then
    Rows [mkRawBead "gt-a" "A" "open" "fresh";
          mkRawBead "gt-b" "B" "open" "broken";
          mkRawBead "gt-c" "C" "hooked" "fresh";
          mkRawBead "gt-d" "D" "open" "fresh";
          mkRawBead "gt-a" "A" "open" "fresh"]
  else CmdFailed (ErrMsg "exit status 1").

Definition demoDirs : list string := ["/town"; "/town/gastown"].

Definition demoResult : list queuedBeadInfo :=
  [mkInfo "gt-a" "A" "open" "gastown" false;
   mkInfo "gt-d" "D" "open" "gastown" true].

Lemma demo_listQueuedBeads :
  listQueuedBeads demoParse demoReady demoList demoDirs = inr demoResult.
Proof. vm_compute. reflexivity. Qed.

Lemma listQueuedBeads_ready_and_blocked_witness :
  Forall (fun b =>
    Status b <> "hooked"%string /\ Status b <> "closed"%string /\
    Blocked b =
      negb (bool_decide (ID b ∈ collectReadyIDs demoParse demoReady demoDirs)) /\
    fromStore demoParse demoList demoDirs b) demoResult.
Proof.
  apply Forall_forall.
  refine (proj2 (listQueuedBeads_ready_and_blocked
                   demoParse demoReady demoList demoDirs demoResult _)).
  vm_compute. reflexivity.
Defined.

(** Only the rig store is down, yet it is the only one with queued beads
    according to the empty answer of the root store. *)
Definition emptyRootList (dir : string) : bdOut rawBead :=
  if (dir =? "/town")%string then Rows []
  else CmdFailed (ErrMsg "exit status 1").

(** ** C2 (failing input): with the root query succeeding on an empty
    array and the rig query failing, [listAllQueueLabeledBeadIDs] reports
    "all directories failed" although one directory answered, while
    [listQueuedBeads] returns the (empty) partial result without error. *)
Theorem listAllQueueLabeledBeadIDs_partial_failure :
  listQueuedBeadsFrom demoParse emptyRootList "/town" = inr [] /\
  listAllQueueLabeledBeadIDs emptyRootList demoDirs =
    inl (ErrWrap "all directories failed" (ErrMsg "exit status 1")) /\
  listQueuedBeads demoParse demoReady emptyRootList demoDirs = inr [].
Proof. vm_compute. auto. Qed.

(** The root store lists [gt-a] twice; the listing has it once. *)
Lemma listQueuedBeads_no_duplicates_witness :
  NoDup (map ID demoResult).
Proof.
  refine (listQueuedBeads_no_duplicates demoParse demoReady demoList
            demoDirs demoResult _).
  vm_compute. reflexivity.
Defined.

(** The open row [gt-d] of the root store is listed although the rig
    store is down. *)
Lemma listQueuedBeads_lists_every_pending_row_witness :
  In "gt-d"%string (map ID demoResult).
Proof.
  refine (listQueuedBeads_lists_every_pending_row demoParse demoReady demoList
            demoDirs demoResult "/town"%string
            [mkRawBead "gt-a" "A" "open" "fresh";
             mkRawBead "gt-b" "B" "open" "broken";
             mkRawBead "gt-c" "C" "hooked" "fresh";
             mkRawBead "gt-d" "D" "open" "fresh";
             mkRawBead "gt-a" "A" "open" "fresh"]
            (mkRawBead "gt-d" "D" "open" "fresh") _ _ _ _ _ _ _).
  - vm_compute. reflexivity.
  - simpl. auto.
  - reflexivity.
  - simpl. auto.
  - simpl. discriminate.
  - simpl. discriminate.
  - vm_compute. reflexivity.
Defined.

(** The hooked [gt-c] and the circuit-broken [gt-b] are returned too. *)
Lemma listAllQueueLabeledBeadIDs_ids_witness :
  NoDup ["gt-a"; "gt-b"; "gt-c"; "gt-d"]%string /\
  forall id,
    In id ["gt-a"; "gt-b"; "gt-c"; "gt-d"]%string <->
    exists dir raw r, In dir demoDirs /\ demoList dir = Rows raw /\
                      In r raw /\ raw_ID r = id.
Proof.
  refine (listAllQueueLabeledBeadIDs_ids demoList demoDirs
            ["gt-a"; "gt-b"; "gt-c"; "gt-d"]%string _).
  vm_compute. reflexivity.
Defined.

End Resolver.

(** ** Target-type router and batch enqueue ([queue_enqueue.go],
       [convoy_queue.go]) *)
Module Router.

(** The fields of [bd show] the command reads. *)
Record beadInfo := mkBeadInfo {
  bi_Title : string;
  bi_Status : string;
  bi_Assignee : string;
  bi_Labels : list string;
  bi_IssueType : string
}.

Record EnqueueOptions := mkEnqueueOptions {
  eo_Formula : string;
  eo_Args : string;
  eo_Vars : list string;
  eo_Merge : string;
  eo_BaseBranch : string;
  eo_NoConvoy : bool;
  eo_Owned : bool;
  eo_DryRun : bool;
  eo_Force : bool;
  eo_NoMerge : bool;
  eo_Account : string;
  eo_Agent : string;
  eo_HookRawBead : bool;
  eo_Ralph : bool
}.

(** [convoyQueueOpts] and [epicQueueOpts] have the same four fields. *)
Record groupQueueOpts := mkGroupQueueOpts {
  go_Formula : string;
  go_HookRawBead : bool;
  go_Force : bool;
  go_DryRun : bool
}.

(** Package-level flag variables of [gt queue <id>]. *)
Record queueFlags := mkQueueFlags {
  queueFormula : string;
  queueHookRawBead : bool;
  queueArgs : string;
  queueVars : list string;
  queueMerge : string;
  queueBaseBranch : string;
  queueNoConvoy : bool;
  queueOwned : bool;
  queueNoMerge : bool;
  queueForce : bool;
  queueDryRun : bool;
  queueAccount : string;
  queueAgent : string;
  queueRalph : bool
}.

(** A member of a convoy ([getTrackedIssues]) or of an epic ([epicChild]). *)
Record member := mkMember {
  m_ID : string;
  m_Title : string;
  m_Status : string;
  m_Assignee : string;
  m_Labels : list string
}.

Record queueCandidate := mkCandidate {
  c_ID : string;
  c_Title : string;
  c_RigName : string
}.

(** A row of [bd dep list --json]. *)
Record depRow := mkDepRow {
  dep_ID : string;
  dep_Title : string;
  dep_Status : string
}.

(** Outcome of [bd dep list]: a non-zero exit with nothing on either
    stream means no dependencies; any other failure is an error. *)
Inductive depListOut :=
| DepNone
| DepFailed (e : error)
| DepBadJSON (e : error)
| DepRows (deps : list depRow).

(** Early return of a command, or the value it goes on with. *)
Inductive phase (A : Type) :=
| Return (r : option error)
| Continue (a : A).
Arguments Return {A} r.
Arguments Continue {A} a.

Section WithWorld.

(** The issue store and everything else the collaborators can touch. *)
Variable W : Type.

Local Abbreviation M := (cmd W).

(** Helpers of the package that live in other files, and subprocesses. *)
Variable getBeadInfo : string -> W -> (error + beadInfo) * W.
Variable verifyBeadExists : string -> W -> option error * W.
Variable enqueueBead : string -> string -> EnqueueOptions -> W -> option error * W.
Variable getTrackedIssues : string -> string -> W -> (error + list member) * W.
(** [bd dep list <id> --direction=down --type=depends_on --json] *)
Variable bdDepList : string -> W -> depListOut * W.
Variable hasQueuedLabel : list string -> bool.
Variable resolveRigForBead : string -> string -> string.
Variable resolveFormula : string -> bool -> string.
Variable IsRigName : string -> string * bool.
Variable FindFromCwdOrError : error + string.
(** [filepath.Join] *)
Variable Join : list string -> string.

(** Label scan of [detectQueueIDType]: the first type marker decides. *)
Fixpoint scanLabels (labels : list string) : string :=
  match labels with
  | [] => "task"
  | label :: rest =>
      if (label =? "gt:epic")%string then "epic"
      else if (label =? "gt:convoy")%string then "convoy"
      else scanLabels rest
  end.

Definition detectQueueIDType (id : string) : M (error + string) :=
  if String.prefix "hq-cv-" id then ret (inr "convoy")
  else
    let* r := call (getBeadInfo id) in
    match r with
    | inl err => ret (inl (ErrWrap "cannot resolve bead" err))
    | inr info =>
        if (bi_IssueType info =? "epic")%string then ret (inr "epic")
        else if (bi_IssueType info =? "convoy")%string then ret (inr "convoy")
        else ret (inr (scanLabels (bi_Labels info)))
    end.

(** Loop body of [getEpicChildren]: a child that cannot be looked up is
    kept with the fields of the dependency row. *)
Definition childStep (acc : list member * W) (dep : depRow) : list member * W :=
  let (children, w) := acc in
  let (r, w') := getBeadInfo (dep_ID dep) w in
  match r with
  | inl _ =>
      ((children ++ [mkMember (dep_ID dep) (dep_Title dep) (dep_Status dep) "" []])%list,
       w')
  | inr info =>
      ((children ++ [mkMember (dep_ID dep) (bi_Title info) (bi_Status info)
                              (bi_Assignee info) (bi_Labels info)])%list,
       w')
  end.

Definition getEpicChildren (epicID : string) (w : W)
  : (error + list member) * W :=
  let (out, w1) := bdDepList epicID w in
  match out with
  | DepNone => (inr [], w1)
  | DepFailed e => (inl (ErrWrap "bd dep list" e), w1)
  | DepBadJSON e => (inl (ErrWrap "parsing dependency list" e), w1)
  | DepRows deps =>
      let (children, w2) := fold_left childStep deps ([], w1) in
      (inr children, w2)
  end.

(** *** Group fan-out ([runConvoyQueueByID], [runEpicQueueByID]) *)

Fixpoint foldM {A S} (f : S -> A -> M S) (l : list A) (s : S) : M S :=
  match l with
  | [] => ret s
  | a :: rest => let* s' := f s a in foldM f rest s'
  end.

(** Locals of the filter loop. *)
Record filterState := mkFilterState {
  candidates : list queueCandidate;
  skippedClosed : nat;
  skippedAssigned : nat;
  skippedQueued : nat;
  skippedNoRig : nat
}.

Definition noCandidates : filterState := mkFilterState [] 0 0 0 0.

Definition skipClosed (fs : filterState) : filterState :=
  mkFilterState (candidates fs) (S (skippedClosed fs)) (skippedAssigned fs)
                (skippedQueued fs) (skippedNoRig fs).
Definition skipAssigned (fs : filterState) : filterState :=
  mkFilterState (candidates fs) (skippedClosed fs) (S (skippedAssigned fs))
                (skippedQueued fs) (skippedNoRig fs).
Definition skipQueued (fs : filterState) : filterState :=
  mkFilterState (candidates fs) (skippedClosed fs) (skippedAssigned fs)
                (S (skippedQueued fs)) (skippedNoRig fs).
Definition skipNoRig (fs : filterState) : filterState :=
  mkFilterState (candidates fs) (skippedClosed fs) (skippedAssigned fs)
                (skippedQueued fs) (S (skippedNoRig fs)).
Definition addCandidate (fs : filterState) (c : queueCandidate) : filterState :=
  mkFilterState (candidates fs ++ [c]) (skippedClosed fs) (skippedAssigned fs)
                (skippedQueued fs) (skippedNoRig fs).

(** Tail of both filter loops: resolve the rig from the bead prefix. *)
Definition resolveCandidate (townRoot : string) (fs : filterState) (t : member)
  : M filterState :=
  let rigName := resolveRigForBead townRoot (m_ID t) in
  if (rigName =? "")%string then
    print (ItemNoRig (m_ID t)) ;; ret (skipNoRig fs)
  else ret (addCandidate fs (mkCandidate (m_ID t) (m_Title t) rigName)).

(** Body of [for _, t := range tracked] in [runConvoyQueueByID]. *)
Definition convoyFilterStep (townRoot : string) (opts : groupQueueOpts)
    (fs : filterState) (t : member) : M filterState :=
  if (m_Status t =? "closed")%string || (m_Status t =? "tombstone")%string then
    ret (skipClosed fs)
  else if negb (m_Assignee t =? "")%string && negb (go_Force opts) then
    ret (skipAssigned fs)
  else
    let* r := call (getBeadInfo (m_ID t)) in
    match r with
    | inl err => print (ItemUnchecked (m_ID t) err) ;; ret fs
    | inr info =>
        if hasQueuedLabel (bi_Labels info) then ret (skipQueued fs)
        else resolveCandidate townRoot fs t
    end.

(** Body of [for _, c := range children] in [runEpicQueueByID]. *)
Definition epicFilterStep (townRoot : string) (opts : groupQueueOpts)
    (fs : filterState) (c : member) : M filterState :=
  if (m_Status c =? "closed")%string || (m_Status c =? "tombstone")%string then
    ret (skipClosed fs)
  else if negb (m_Assignee c =? "")%string && negb (go_Force opts) then
    ret (skipAssigned fs)
  else if hasQueuedLabel (m_Labels c) then ret (skipQueued fs)
  else resolveCandidate townRoot fs c.

(** [runConvoyQueueByID] up to the end of the filter loop. *)
Definition convoyCandidates (convoyID : string) (opts : groupQueueOpts)
  : M (phase filterState) :=
  match FindFromCwdOrError with
  | inl err => ret (Return (Some err))
  | inr townRoot =>
      let* missing := call (verifyBeadExists convoyID) in
      match missing with
      | Some _ => ret (Return (Some (ErrMsg "convoy not found")))
      | None =>
          let townBeads := Join [townRoot; ".beads"] in
          let* tr := call (getTrackedIssues townBeads convoyID) in
          match tr with
          | inl err => ret (Return (Some (ErrWrap "getting tracked issues" err)))
          | inr tracked =>
              if (length tracked =? 0)%nat then
                print (Note "Convoy has no tracked issues.") ;; ret (Return None)
              else
                let* fs := foldM (convoyFilterStep townRoot opts) tracked
                                 noCandidates in
                ret (Continue fs)
          end
      end
  end.

(** [runEpicQueueByID] up to the end of the filter loop. *)
Definition epicCandidates (epicID : string) (opts : groupQueueOpts)
  : M (phase filterState) :=
  match FindFromCwdOrError with
  | inl err => ret (Return (Some err))
  | inr townRoot =>
      let* missing := call (verifyBeadExists epicID) in
      match missing with
      | Some _ => ret (Return (Some (ErrMsg "epic not found")))
      | None =>
          let* ch := call (getEpicChildren epicID) in
          match ch with
          | inl err => ret (Return (Some (ErrWrap "listing children" err)))
          | inr children =>
              if (length children =? 0)%nat then
                print (Note "Epic has no child issues.") ;; ret (Return None)
              else
                let* fs := foldM (epicFilterStep townRoot opts) children
                                 noCandidates in
                ret (Continue fs)
          end
      end
  end.

Definition convoyEnqueueOptions (opts : groupQueueOpts) : EnqueueOptions :=
  mkEnqueueOptions (go_Formula opts) "" [] "" "" true false false
                   (go_Force opts) false "" "" (go_HookRawBead opts) false.

Definition epicEnqueueOptions (opts : groupQueueOpts) : EnqueueOptions :=
  mkEnqueueOptions (go_Formula opts) "" [] "" "" false false false
                   (go_Force opts) false "" "" (go_HookRawBead opts) false.

(** Body of [for _, c := range candidates]: a failure is printed and the
    loop continues. *)
Definition groupEnqueueStep (eopts : EnqueueOptions) (successCount : nat)
    (c : queueCandidate) : M nat :=
  let* err := call (enqueueBead (c_ID c) (c_RigName c) eopts) in
  match err with
  | Some e => print (ItemFailed (c_ID c) e) ;; ret successCount
  | None => ret (S successCount)
  end.

Definition printWouldQueue (_ : unit) (c : queueCandidate) : M unit :=
  print (WouldQueue (c_ID c)).

(** Both commands from [if len(candidates) == 0] to the end. *)
Definition queueCandidates (eopts : EnqueueOptions) (dryRun : bool)
    (failure : string) (fs : filterState) : M (option error) :=
  if (length (candidates fs) =? 0)%nat then
    print (Note "Nothing to queue") ;; ret None
  else if dryRun then
    print (Note "DRY-RUN") ;;
    foldM printWouldQueue (candidates fs) tt ;;
    ret None
  else
    print (Note "Queuing") ;;
    let* successCount := foldM (groupEnqueueStep eopts) (candidates fs) 0%nat in
    print (Summary successCount (length (candidates fs))) ;;
    if (successCount =? 0)%nat then ret (Some (ErrMsg failure)) else ret None.

Definition runConvoyQueueByID (convoyID : string) (opts : groupQueueOpts)
  : M (option error) :=
  let* p := convoyCandidates convoyID opts in
  match p with
  | Return r => ret r
  | Continue fs =>
      queueCandidates (convoyEnqueueOptions opts) (go_DryRun opts)
        "all enqueue attempts failed for convoy" fs
  end.

Definition runEpicQueueByID (epicID : string) (opts : groupQueueOpts)
  : M (option error) :=
  let* p := epicCandidates epicID opts in
  match p with
  | Return r => ret r
  | Continue fs =>
      queueCandidates (epicEnqueueOptions opts) (go_DryRun opts)
        "all enqueue attempts failed for epic" fs
  end.

(** *** Task beads ([runTaskQueueEnqueue]) *)

Definition taskEnqueueOptions (fl : queueFlags) (formula : string)
  : EnqueueOptions :=
  mkEnqueueOptions formula (queueArgs fl) (queueVars fl) (queueMerge fl)
    (queueBaseBranch fl) (queueNoConvoy fl) (queueOwned fl) (queueDryRun fl)
    (queueForce fl) (queueNoMerge fl) (queueAccount fl) (queueAgent fl)
    (queueHookRawBead fl) (queueRalph fl).

(** A trailing rig name is split off when there are at least two args. *)
Definition splitRig (args : list string) : string * list string :=
  if (2 <=? length args)%nat then
    let (rigName, isRig) := IsRigName (List.last args "") in
    if isRig then (rigName, removelast args) else ("", args)
  else ("", args).

(** [for _, beadID := range beadArgs[1:]]: the first offender returns. *)
Fixpoint validateBatch (ids : list string) : M (option error) :=
  match ids with
  | [] => ret None
  | beadID :: rest =>
      let* r := detectQueueIDType beadID in
      match r with
      | inl err => ret (Some (ErrWrap "cannot resolve bead" err))
      | inr idType =>
          if negb (idType =? "task")%string then
            ret (Some (ErrMsg "mixed ID types in batch"))
          else validateBatch rest
      end
  end.

Definition taskEnqueueStep (townRoot explicitRig : string)
    (eopts : EnqueueOptions) (successCount : nat) (beadID : string) : M nat :=
  let rigName := if (explicitRig =? "")%string
                 then resolveRigForBead townRoot beadID else explicitRig in
  if (rigName =? "")%string then
    print (ItemNoRig beadID) ;; ret successCount
  else
    let* err := call (enqueueBead beadID rigName eopts) in
    match err with
    | Some e => print (ItemFailed beadID e) ;; ret successCount
    | None => ret (S successCount)
    end.

(** Callers pass at least one argument ([queueCmd] rejects none). *)
Definition runTaskQueueEnqueue (fl : queueFlags) (args : list string)
  : M (option error) :=
  match FindFromCwdOrError with
  | inl err => ret (Some err)
  | inr townRoot =>
      let (explicitRig, beadArgs) := splitRig args in
      let formula := resolveFormula (queueFormula fl) (queueHookRawBead fl) in
      let eopts := taskEnqueueOptions fl formula in
      if (length beadArgs =? 1)%nat then
        let beadID := List.hd "" beadArgs in
        let rigName := if (explicitRig =? "")%string
                       then resolveRigForBead townRoot beadID else explicitRig in
        if (rigName =? "")%string then
          ret (Some (ErrMsg "cannot resolve rig"))
        else call (enqueueBead beadID rigName eopts)
      else
        let* bad := validateBatch (List.tl beadArgs) in
        match bad with
        | Some err => ret (Some err)
        | None =>
            (if queueDryRun fl then print (Note "DRY-RUN") else ret tt) ;;
            let* successCount :=
              foldM (taskEnqueueStep townRoot explicitRig eopts) beadArgs 0%nat in
            print (Summary successCount (length beadArgs)) ;;
            if (successCount =? 0)%nat then
              ret (Some (ErrMsg "all enqueue attempts failed"))
            else ret None
        end
  end.

(** *** Properties of the router *)

Lemma scanLabels_first pre marker post :
  (marker = "gt:epic" \/ marker = "gt:convoy")%string ->
  ~ In "gt:epic"%string pre -> ~ In "gt:convoy"%string pre ->
  scanLabels (pre ++ marker :: post) =
  if (marker =? "gt:epic")%string then "epic"%string else "convoy"%string.
Proof.
  intros Hm He Hc. induction pre as [|l pre IH]; simpl.
  - destruct Hm as [-> | ->]; reflexivity.
  - simpl in He, Hc.
    destruct (l =? "gt:epic")%string eqn:E1;
      [apply String.eqb_eq in E1; prop_solve|].
    destruct (l =? "gt:convoy")%string eqn:E2;
      [apply String.eqb_eq in E2; prop_solve|].
    apply IH; prop_solve.
Qed.

Lemma scanLabels_none labels :
  ~ In "gt:epic"%string labels -> ~ In "gt:convoy"%string labels ->
  scanLabels labels = "task"%string.
Proof.
  induction labels as [|l labels IH]; simpl; [reflexivity|].
  intros He Hc.
  destruct (l =? "gt:epic")%string eqn:E1;
    [apply String.eqb_eq in E1; prop_solve|].
  destruct (l =? "gt:convoy")%string eqn:E2;
    [apply String.eqb_eq in E2; prop_solve|].
  apply IH; prop_solve.
Qed.

(** ** C3: classification by [detectQueueIDType].  The reserved prefix
    yields a convoy and leaves the state untouched whatever the lookup
    would do; otherwise the looked-up [issue_type] decides (epic or
    convoy); otherwise the first [gt:epic] / [gt:convoy] label decides;
    and without any of these the identifier is a task. *)
Theorem detectQueueIDType_classifies id s :
  (String.prefix "hq-cv-" id = true ->
     detectQueueIDType id s = (inr "convoy"%string, s)) /\
  (String.prefix "hq-cv-" id = false ->
   forall info w',
     getBeadInfo id (fst s) = (inr info, w') ->
     (bi_IssueType info = "epic"%string ->
        detectQueueIDType id s = (inr "epic"%string, (w', snd s))) /\
     (bi_IssueType info = "convoy"%string ->
        detectQueueIDType id s = (inr "convoy"%string, (w', snd s))) /\
     (bi_IssueType info <> "epic"%string ->
      bi_IssueType info <> "convoy"%string ->
        (forall pre post,
           bi_Labels info = (pre ++ "gt:epic"%string :: post)%list ->
           ~ In "gt:epic"%string pre -> ~ In "gt:convoy"%string pre ->
           detectQueueIDType id s = (inr "epic"%string, (w', snd s))) /\
        (forall pre post,
           bi_Labels info = (pre ++ "gt:convoy"%string :: post)%list ->
           ~ In "gt:epic"%string pre -> ~ In "gt:convoy"%string pre ->
           detectQueueIDType id s = (inr "convoy"%string, (w', snd s))) /\
        (~ In "gt:epic"%string (bi_Labels info) ->
         ~ In "gt:convoy"%string (bi_Labels info) ->
           detectQueueIDType id s = (inr "task"%string, (w', snd s))))).
Proof.
  unfold detectQueueIDType. split.
  - intros ->. reflexivity.
  - intros -> info w' Hlookup.
    unfold bind, call, ret. rewrite Hlookup.
    split; [|split].
    + intros ->. reflexivity.
    + intros ->. reflexivity.
    + intros Hne Hnc.
      apply String.eqb_neq in Hne, Hnc. rewrite Hne, Hnc.
      split; [|split].
      * intros pre post -> H1 H2.
        rewrite scanLabels_first by auto. reflexivity.
      * intros pre post -> H1 H2.
        rewrite scanLabels_first by auto. reflexivity.
      * intros H1 H2. now rewrite scanLabels_none.
Qed.

Lemma detectQueueIDType_unresolved id s err w' :
  String.prefix "hq-cv-" id = false ->
  getBeadInfo id (fst s) = (inl err, w') ->
  detectQueueIDType id s = (inl (ErrWrap "cannot resolve bead" err), (w', snd s)).
Proof.
  intros Hp Hl. unfold detectQueueIDType, bind, call, ret.
  now rewrite Hp, Hl.
Qed.

(** *** Properties of the batch commands *)

(** The enqueue calls of a group fan-out, one per candidate, threaded
    through the world in order. *)
Fixpoint groupAttempts (eopts : EnqueueOptions) (cs : list queueCandidate)
    (w : W) : list (option error) * W :=
  match cs with
  | [] => ([], w)
  | c :: rest =>
      let (e, w1) := enqueueBead (c_ID c) (c_RigName c) eopts w in
      let (es, w2) := groupAttempts eopts rest w1 in
      (e :: es, w2)
  end.

(** The outcome of each bead of a task batch: a bead whose rig cannot be
    resolved fails without an enqueue call. *)
Fixpoint taskAttempts (townRoot explicitRig : string) (eopts : EnqueueOptions)
    (ids : list string) (w : W) : list (option error) * W :=
  match ids with
  | [] => ([], w)
  | beadID :: rest =>
      let rigName := if (explicitRig =? "")%string
                     then resolveRigForBead townRoot beadID else explicitRig in
      let (e, w1) :=
        if (rigName =? "")%string then (Some (ErrMsg "cannot resolve rig"), w)
        else enqueueBead beadID rigName eopts w in
      let (es, w2) := taskAttempts townRoot explicitRig eopts rest w1 in
      (e :: es, w2)
  end.

Definition succeeded (e : option error) : bool :=
  match e with None => true | Some _ => false end.

Definition successes (es : list (option error)) : nat :=
  length (List.filter succeeded es).

Lemma groupAttempts_length eopts cs : forall w,
  length (fst (groupAttempts eopts cs w)) = length cs.
Proof.
  induction cs as [|c cs IH]; intros w; simpl; [reflexivity|].
  destruct (enqueueBead _ _ _ w) as [e w1].
  specialize (IH w1). destruct (groupAttempts eopts cs w1). simpl in *. lia.
Qed.

Lemma taskAttempts_length townRoot explicitRig eopts ids : forall w,
  length (fst (taskAttempts townRoot explicitRig eopts ids w)) = length ids.
Proof.
  induction ids as [|i ids IH]; intros w; simpl; [reflexivity|].
  destruct (if (_ =? "")%string then _ else _) as [e w1].
  specialize (IH w1). destruct (taskAttempts _ _ _ ids w1). simpl in *. lia.
Qed.

Lemma foldM_groupEnqueueStep eopts cs : forall n w out,
  exists out',
    foldM (groupEnqueueStep eopts) cs n (w, out) =
    ((n + successes (fst (groupAttempts eopts cs w)))%nat,
     (snd (groupAttempts eopts cs w), out')).
Proof.
  induction cs as [|c cs IH]; intros n w out; simpl.
  - exists out. unfold ret, successes. simpl. f_equal. lia.
  - unfold bind at 1. unfold groupEnqueueStep at 1. unfold bind at 1, call at 1.
    simpl. destruct (enqueueBead (c_ID c) (c_RigName c) eopts w) as [e w1].
    destruct e as [e|].
    + unfold bind, print, ret. simpl.
      destruct (IH n w1 (out ++ [ItemFailed (c_ID c) e])%list) as [out' Hout].
      exists out'. rewrite Hout.
      destruct (groupAttempts eopts cs w1) as [es w2]. reflexivity.
    + unfold ret. destruct (IH (S n) w1 out) as [out' Hout].
      exists out'. rewrite Hout.
      destruct (groupAttempts eopts cs w1) as [es w2].
      unfold successes. simpl. f_equal. lia.
Qed.

Lemma foldM_taskEnqueueStep townRoot explicitRig eopts ids : forall n w out,
  exists out',
    foldM (taskEnqueueStep townRoot explicitRig eopts) ids n (w, out) =
    ((n + successes (fst (taskAttempts townRoot explicitRig eopts ids w)))%nat,
     (snd (taskAttempts townRoot explicitRig eopts ids w), out')).
Proof.
  induction ids as [|i ids IH]; intros n w out; simpl.
  - exists out. unfold ret, successes. simpl. f_equal. lia.
  - unfold bind at 1. unfold taskEnqueueStep at 1.
    destruct ((if (explicitRig =? "")%string
               then resolveRigForBead townRoot i else explicitRig) =? "")%string.
    + unfold bind, print, ret. simpl.
      destruct (IH n w (out ++ [ItemNoRig i])%list) as [out' Hout].
      exists out'. rewrite Hout.
      destruct (taskAttempts townRoot explicitRig eopts ids w) as [es w2].
      reflexivity.
    + unfold bind at 1, call at 1. simpl.
      destruct (enqueueBead i _ eopts w) as [e w1]. destruct e as [e|].
      * unfold bind, print, ret. simpl.
        destruct (IH n w1 (out ++ [ItemFailed i e])%list) as [out' Hout].
        exists out'. rewrite Hout.
        destruct (taskAttempts townRoot explicitRig eopts ids w1) as [es w2].
        reflexivity.
      * unfold ret. destruct (IH (S n) w1 out) as [out' Hout].
        exists out'. rewrite Hout.
        destruct (taskAttempts townRoot explicitRig eopts ids w1) as [es w2].
        unfold successes. simpl. f_equal. lia.
Qed.

(** What a group dry run prints: the heading, then one line per
    candidate, in order. *)
Definition dryRunReport (cs : list queueCandidate) : list line :=
  Note "DRY-RUN" :: map (fun c => WouldQueue (c_ID c)) cs.

Lemma foldM_printWouldQueue cs : forall w out,
  foldM printWouldQueue cs tt (w, out) =
  (tt, (w, (out ++ map (fun c => WouldQueue (c_ID c)) cs)%list)).
Proof.
  induction cs as [|c cs IH]; intros w out; simpl.
  - unfold ret. now rewrite app_nil_r.
  - unfold bind, printWouldQueue, print. simpl. rewrite IH.
    now rewrite <- app_assoc.
Qed.

(** Tail of a group fan-out outside dry-run mode: every candidate is
    attempted and the command fails exactly when none succeeded. *)
Lemma queueCandidates_policy eopts failure fs w out :
  candidates fs <> [] ->
  let attempts := groupAttempts eopts (candidates fs) w in
  exists r out',
    queueCandidates eopts false failure fs (w, out) = (r, (snd attempts, out')) /\
    (r <> None <-> successes (fst attempts) = 0%nat).
Proof.
  intros Hne attempts. unfold queueCandidates.
  destruct (length (candidates fs) =? 0)%nat eqn:E.
  { apply Nat.eqb_eq, length_zero_iff_nil in E. contradiction. }
  unfold bind at 1, print at 1. simpl.
  unfold bind at 1.
  destruct (foldM_groupEnqueueStep eopts (candidates fs) 0%nat w
              (out ++ [Note "Queuing"])%list) as [out1 Hloop].
  rewrite Hloop. fold attempts. simpl.
  unfold bind, print, ret. simpl.
  destruct (successes (fst attempts)) as [|k] eqn:Hk; simpl.
  - eexists _, _. split; [reflexivity|]. split; [reflexivity|discriminate].
  - eexists _, _. split; [reflexivity|]. split; [congruence|discriminate].
Qed.

(** Tail of a group fan-out in dry-run mode: the candidates are listed,
    nothing is enqueued and the command succeeds. *)
Lemma queueCandidates_dry_run eopts failure fs w out :
  candidates fs <> [] ->
  queueCandidates eopts true failure fs (w, out) =
  (None, (w, (out ++ dryRunReport (candidates fs))%list)).
Proof.
  intros Hne. unfold queueCandidates.
  destruct (length (candidates fs) =? 0)%nat eqn:E.
  { apply Nat.eqb_eq, length_zero_iff_nil in E. contradiction. }
  unfold bind at 1, print at 1. simpl. unfold bind at 1.
  rewrite foldM_printWouldQueue. unfold ret, dryRunReport.
  now rewrite <- app_assoc.
Qed.

Lemma runConvoyQueueByID_policy convoyID opts s fs s1 :
  convoyCandidates convoyID opts s = (Continue fs, s1) ->
  candidates fs <> [] ->
  go_DryRun opts = false ->
  let attempts :=
    groupAttempts (convoyEnqueueOptions opts) (candidates fs) (fst s1) in
  length (fst attempts) = length (candidates fs) /\
  exists r out',
    runConvoyQueueByID convoyID opts s = (r, (snd attempts, out')) /\
    (r <> None <-> successes (fst attempts) = 0%nat).
Proof.
  intros Hc Hne Hdry attempts. split; [apply groupAttempts_length|].
  unfold runConvoyQueueByID, bind. rewrite Hc, Hdry. destruct s1 as [w1 out1].
  now apply queueCandidates_policy.
Qed.

Lemma runEpicQueueByID_policy epicID opts s fs s1 :
  epicCandidates epicID opts s = (Continue fs, s1) ->
  candidates fs <> [] ->
  go_DryRun opts = false ->
  let attempts :=
    groupAttempts (epicEnqueueOptions opts) (candidates fs) (fst s1) in
  length (fst attempts) = length (candidates fs) /\
  exists r out',
    runEpicQueueByID epicID opts s = (r, (snd attempts, out')) /\
    (r <> None <-> successes (fst attempts) = 0%nat).
Proof.
  intros Hc Hne Hdry attempts. split; [apply groupAttempts_length|].
  unfold runEpicQueueByID, bind. rewrite Hc, Hdry. destruct s1 as [w1 out1].
  now apply queueCandidates_policy.
Qed.

Lemma runTaskQueueEnqueue_policy fl args townRoot explicitRig beadArgs s s1 :
  FindFromCwdOrError = inr townRoot ->
  splitRig args = (explicitRig, beadArgs) ->
  length beadArgs <> 1%nat ->
  validateBatch (List.tl beadArgs) s = (None, s1) ->
  let eopts := taskEnqueueOptions fl
                 (resolveFormula (queueFormula fl) (queueHookRawBead fl)) in
  let attempts := taskAttempts townRoot explicitRig eopts beadArgs (fst s1) in
  length (fst attempts) = length beadArgs /\
  exists r out',
    runTaskQueueEnqueue fl args s = (r, (snd attempts, out')) /\
    (r <> None <-> successes (fst attempts) = 0%nat).
Proof.
  intros Hroot Hsplit Hlen Hval eopts attempts.
  split; [apply taskAttempts_length|].
  unfold runTaskQueueEnqueue. rewrite Hroot, Hsplit.
  apply Nat.eqb_neq in Hlen. rewrite Hlen.
  unfold bind at 1. rewrite Hval. destruct s1 as [w1 out1].
  unfold bind at 1.
  set (pre := (if queueDryRun fl then print (Note "DRY-RUN") else ret tt)
                (w1, out1)).
  assert (Hpre : exists out2, pre = (tt, (w1, out2))).
  { unfold pre. destruct (queueDryRun fl); unfold print, ret; simpl; eauto. }
  destruct Hpre as [out2 ->].
  unfold bind at 1.
  destruct (foldM_taskEnqueueStep townRoot explicitRig eopts beadArgs 0%nat
              w1 out2) as [out3 Hloop].
  fold eopts. rewrite Hloop. subst attempts. cbn [fst snd].
  unfold bind, print, ret. simpl.
  set (attempts := taskAttempts townRoot explicitRig eopts beadArgs w1).
  destruct (successes (fst attempts)) as [|k] eqn:Hk; simpl.
  - eexists _, _. split; [reflexivity|]. split; [reflexivity|discriminate].
  - eexists _, _. split; [reflexivity|]. split; [congruence|discriminate].
Qed.

(** The outcome of each bead of a task batch of several beads, after the
    type check [checked] of the beads that follow the first: a batch the
    check rejects makes no enqueue call at all. *)
Definition batchAttempts (townRoot explicitRig : string)
    (eopts : EnqueueOptions) (beadArgs : list string)
    (checked : option error * (W * list line)) : list (option error) * W :=
  match fst checked with
  | Some _ => ([], fst (snd checked))
  | None => taskAttempts townRoot explicitRig eopts beadArgs (fst (snd checked))
  end.

Lemma runTaskQueueEnqueue_batch fl args townRoot explicitRig beadArgs s :
  FindFromCwdOrError = inr townRoot ->
  splitRig args = (explicitRig, beadArgs) ->
  (2 <= length beadArgs)%nat ->
  let eopts := taskEnqueueOptions fl
                 (resolveFormula (queueFormula fl) (queueHookRawBead fl)) in
  let checked := validateBatch (List.tl beadArgs) s in
  let attempts := batchAttempts townRoot explicitRig eopts beadArgs checked in
  (fst checked = None -> length (fst attempts) = length beadArgs) /\
  exists r out',
    runTaskQueueEnqueue fl args s = (r, (snd attempts, out')) /\
    (r <> None <-> successes (fst attempts) = 0%nat).
Proof.
  intros Hroot Hsplit Hlen eopts checked attempts.
  subst checked attempts. unfold batchAttempts.
  destruct (validateBatch (List.tl beadArgs) s) as [[err|] s1] eqn:Hval;
    cbn [fst snd].
  - split; [discriminate|].
    unfold runTaskQueueEnqueue. rewrite Hroot, Hsplit.
    assert (Hne : (length beadArgs =? 1)%nat = false)
      by (apply Nat.eqb_neq; lia).
    rewrite Hne. unfold bind at 1. rewrite Hval. destruct s1 as [w1 out1].
    exists (Some err), out1. split; [reflexivity|].
    split; [reflexivity | discriminate].
  - assert (Hne : length beadArgs <> 1%nat) by lia.
    destruct (runTaskQueueEnqueue_policy fl args townRoot explicitRig beadArgs
                s s1 Hroot Hsplit Hne Hval) as [Hall Hrun].
    split; [intros _; exact Hall | exact Hrun].
Qed.

(** ** C4 (amended): outside dry-run mode a convoy or epic fan-out with at
    least one surviving candidate attempts every candidate and fails
    exactly when no enqueue succeeded; a task batch of several beads does
    the same over its beads (a bead without a resolvable rig counts as a
    failure; a batch rejected by the type check makes no attempt and
    fails, and so does a batch run outside a town); a convoy or epic dry
    run prints the heading and one line per candidate, and succeeds
    without enqueueing anything. *)
Theorem batch_enqueue_policy :
  (forall convoyID opts s fs s1,
     convoyCandidates convoyID opts s = (Continue fs, s1) ->
     candidates fs <> [] ->
     (go_DryRun opts = false ->
      let attempts :=
        groupAttempts (convoyEnqueueOptions opts) (candidates fs) (fst s1) in
      length (fst attempts) = length (candidates fs) /\
      exists r out',
        runConvoyQueueByID convoyID opts s = (r, (snd attempts, out')) /\
        (r <> None <-> successes (fst attempts) = 0%nat)) /\
     (go_DryRun opts = true ->
      runConvoyQueueByID convoyID opts s =
      (None, (fst s1, (snd s1 ++ dryRunReport (candidates fs))%list)))) /\
  (forall epicID opts s fs s1,
     epicCandidates epicID opts s = (Continue fs, s1) ->
     candidates fs <> [] ->
     (go_DryRun opts = false ->
      let attempts :=
        groupAttempts (epicEnqueueOptions opts) (candidates fs) (fst s1) in
      length (fst attempts) = length (candidates fs) /\
      exists r out',
        runEpicQueueByID epicID opts s = (r, (snd attempts, out')) /\
        (r <> None <-> successes (fst attempts) = 0%nat)) /\
     (go_DryRun opts = true ->
      runEpicQueueByID epicID opts s =
      (None, (fst s1, (snd s1 ++ dryRunReport (candidates fs))%list)))) /\
  (forall fl args townRoot explicitRig beadArgs s,
     FindFromCwdOrError = inr townRoot ->
     splitRig args = (explicitRig, beadArgs) ->
     (2 <= length beadArgs)%nat ->
     let eopts := taskEnqueueOptions fl
                    (resolveFormula (queueFormula fl) (queueHookRawBead fl)) in
     let checked := validateBatch (List.tl beadArgs) s in
     let attempts := batchAttempts townRoot explicitRig eopts beadArgs checked in
     (fst checked = None -> length (fst attempts) = length beadArgs) /\
     exists r out',
       runTaskQueueEnqueue fl args s = (r, (snd attempts, out')) /\
       (r <> None <-> successes (fst attempts) = 0%nat)) /\
  (forall fl args err s,
     FindFromCwdOrError = inl err ->
     runTaskQueueEnqueue fl args s = (Some err, s)).
Proof.
  split; [|split; [|split]].
  - intros convoyID opts s fs s1 Hc Hne. split.
    + intros Hdry. now apply runConvoyQueueByID_policy.
    + intros Hdry. unfold runConvoyQueueByID, bind. rewrite Hc, Hdry.
      destruct s1 as [w1 out1]. now apply queueCandidates_dry_run.
  - intros epicID opts s fs s1 Hc Hne. split.
    + intros Hdry. now apply runEpicQueueByID_policy.
    + intros Hdry. unfold runEpicQueueByID, bind. rewrite Hc, Hdry.
      destruct s1 as [w1 out1]. now apply queueCandidates_dry_run.
  - intros. now apply runTaskQueueEnqueue_batch.
  - intros fl args err s Hroot. unfold runTaskQueueEnqueue. now rewrite Hroot.
Qed.

(** *** Validation of a task batch *)

Section ReadOnlyLookup.

(** [bd show] does not change the store. *)
Hypothesis getBeadInfo_reads : forall id w, snd (getBeadInfo id w) = w.

(** The type [detectQueueIDType] finds for [id] in world [w]. *)
Definition idTypeOf (w : W) (id : string) : error + string :=
  fst (detectQueueIDType id (w, [])).

Lemma detectQueueIDType_reads id s :
  detectQueueIDType id s = (idTypeOf (fst s) id, s).
Proof using getBeadInfo_reads.
  unfold idTypeOf, detectQueueIDType. destruct s as [w out]. simpl.
  destruct (String.prefix "hq-cv-" id); [reflexivity|].
  unfold bind, call, ret. simpl.
  pose proof (getBeadInfo_reads id w) as Hro.
  destruct (getBeadInfo id w) as [r w']. simpl in Hro. subst w'.
  destruct r as [err|info]; [reflexivity|].
  destruct (bi_IssueType info =? "epic")%string; [reflexivity|].
  destruct (bi_IssueType info =? "convoy")%string; reflexivity.
Qed.

Definition notATask (w : W) (id : string) : Prop :=
  idTypeOf w id = inr "convoy"%string \/
  idTypeOf w id = inr "epic"%string \/
  exists err, idTypeOf w id = inl err.

Lemma validateBatch_rejects ids : forall s,
  (exists id, In id ids /\ notATask (fst s) id) ->
  exists err, validateBatch ids s = (Some err, s).
Proof using getBeadInfo_reads.
  induction ids as [|i ids IH]; intros s (id & Hin & Hbad); [inversion Hin|].
  simpl. unfold bind at 1. rewrite detectQueueIDType_reads.
  destruct (idTypeOf (fst s) i) as [err|idType] eqn:Ht.
  - unfold ret. eauto.
  - destruct (idType =? "task")%string eqn:Etask; simpl.
    + apply String.eqb_eq in Etask. subst idType.
      apply IH. exists id. split; [|exact Hbad].
      destruct Hin as [->|Hin]; [|exact Hin].
      destruct Hbad as [H|[H|[e H]]]; congruence.
    + unfold ret. eauto.
Qed.

(** ** C10: a task batch with an identifier after the first that is a
    convoy, an epic or unresolvable fails with the world (store and
    output) exactly as it was: no enqueue call is made. *)
Theorem runTaskQueueEnqueue_validates_before_write
    fl args townRoot explicitRig beadArgs s :
  FindFromCwdOrError = inr townRoot ->
  splitRig args = (explicitRig, beadArgs) ->
  (2 <= length beadArgs)%nat ->
  (exists id, In id (List.tl beadArgs) /\ notATask (fst s) id) ->
  exists err, runTaskQueueEnqueue fl args s = (Some err, s).
Proof using getBeadInfo_reads.
  intros Hroot Hsplit Hlen Hbad.
  unfold runTaskQueueEnqueue. rewrite Hroot, Hsplit.
  assert (Hne : (length beadArgs =? 1)%nat = false) by (apply Nat.eqb_neq; lia).
  rewrite Hne. unfold bind.
  destruct (validateBatch_rejects (List.tl beadArgs) s Hbad) as [err ->].
  unfold ret. eauto.
Qed.

End ReadOnlyLookup.

(** *** The entry point and the formula-on-bead mode *)

(** Whether a flag of the command line was set ([Lookup(name).Changed]). *)
Variable flagChanged : string -> bool.

(** [strings.TrimRight(s, "/")] *)
Fixpoint trimRightSlash (s : string) : string :=
  match s with
  | EmptyString => EmptyString
  | String c s' =>
      let t := trimRightSlash s' in
      if Ascii.eqb c "/" && (t =? "")%string then EmptyString else String c t
  end.

Definition taskOnlyFlagNames : list string :=
  ["account"; "agent"; "ralph"; "args"; "var";
   "merge"; "base-branch"; "no-convoy"; "owned"; "no-merge"].

Definition usedTaskOnlyFlags : list string :=
  map (fun name => "--" ++ name) (List.filter flagChanged taskOnlyFlagNames).

Definition validateNoTaskOnlyFlags (mode : string) : option error :=
  let used := usedTaskOnlyFlags in
  if (0 <? length used)%nat then
    Some (ErrMsg (mode ++ " mode does not support: " ++ String.concat ", " used))
  else None.

(** [runFormulaOnBeadEnqueue]: [gt queue <formula> --on <bead> [rig]]. *)
Definition runFormulaOnBeadEnqueue (fl : queueFlags) (queueOnTarget : string)
    (args : list string) : M (option error) :=
  if (length args =? 0)%nat then
    ret (Some (ErrMsg "--on requires a formula name as first argument"))
  else if (2 <? length args)%nat then
    ret (Some (ErrMsg "--on mode accepts: gt queue <formula> --on <bead> [rig]"))
  else if negb (queueFormula fl =? "")%string then
    ret (Some (ErrMsg "cannot use --formula with --on"))
  else if queueHookRawBead fl then
    ret (Some (ErrMsg "cannot use --hook-raw-bead with --on"))
  else
    let formulaName := List.hd "" args in
    let beadID := queueOnTarget in
    let enqueue (rigName : string) : M (option error) :=
      if (rigName =? "")%string then
        match FindFromCwdOrError with
        | inl err => ret (Some err)
        | inr townRoot =>
            let rigName := resolveRigForBead townRoot beadID in
            if (rigName =? "")%string then
              ret (Some (ErrMsg "cannot resolve rig"))
            else call (enqueueBead beadID rigName
                         (taskEnqueueOptions fl formulaName))
        end
      else call (enqueueBead beadID rigName (taskEnqueueOptions fl formulaName)) in
    if (length args =? 2)%nat then
      let (rigName, isRig) := IsRigName (List.nth 1 args "") in
      if isRig then enqueue rigName
      else ret (Some (ErrMsg "unexpected argument (expected a rig name)"))
    else enqueue "".

Definition groupOptsOf (fl : queueFlags) : groupQueueOpts :=
  mkGroupQueueOpts (resolveFormula (queueFormula fl) (queueHookRawBead fl))
                   (queueHookRawBead fl) (queueForce fl) (queueDryRun fl).

(** [runQueueEnqueue]: the unified entry point of [gt queue <id>]; the
    caller passes at least one argument. *)
Definition runQueueEnqueue (fl : queueFlags) (queueOnTarget : string)
    (args : list string) : M (option error) :=
  let args := map trimRightSlash args in
  if negb (queueOnTarget =? "")%string then
    runFormulaOnBeadEnqueue fl queueOnTarget args
  else
    let* r := detectQueueIDType (List.hd "" args) in
    match r with
    | inl err => ret (Some err)
    | inr idType =>
        if (idType =? "convoy")%string then
          if (1 <? length args)%nat then
            ret (Some (ErrMsg "convoy mode accepts exactly one convoy ID"))
          else
            match validateNoTaskOnlyFlags "convoy" with
            | Some err => ret (Some err)
            | None => runConvoyQueueByID (List.hd "" args) (groupOptsOf fl)
            end
        else if (idType =? "epic")%string then
          if (1 <? length args)%nat then
            ret (Some (ErrMsg "epic mode accepts exactly one epic ID"))
          else
            match validateNoTaskOnlyFlags "epic" with
            | Some err => ret (Some err)
            | None => runEpicQueueByID (List.hd "" args) (groupOptsOf fl)
            end
        else runTaskQueueEnqueue fl args
    end.

(** The filter loops on their own. *)
Definition convoyFilter (townRoot : string) (opts : groupQueueOpts)
    (tracked : list member) : M filterState :=
  foldM (convoyFilterStep townRoot opts) tracked noCandidates.

Definition epicFilter (townRoot : string) (opts : groupQueueOpts)
    (children : list member) : M filterState :=
  foldM (epicFilterStep townRoot opts) children noCandidates.

(** *** Properties of the argument handling *)

Fixpoint slashes (n : nat) : string :=
  match n with
  | O => EmptyString
  | S n' => String "/" (slashes n')
  end.

Lemma append_nil_left (x : string) : EmptyString ++ x = x.
Proof. reflexivity. Qed.

Lemma append_cons_left c (a b : string) : String c a ++ b = String c (a ++ b).
Proof. reflexivity. Qed.

Lemma trimRightSlash_splits s :
  exists n, s = trimRightSlash s ++ slashes n.
Proof.
  induction s as [|c s [n IH]]; [now exists 0%nat|].
  cbn [trimRightSlash].
  destruct (Ascii.eqb c "/" && (trimRightSlash s =? "")%string) eqn:E.
  - apply andb_true_iff in E as [Hc Ht].
    apply Ascii.eqb_eq in Hc. apply String.eqb_eq in Ht. subst c.
    exists (S n). rewrite Ht, append_nil_left in IH.
    rewrite append_nil_left. cbn [slashes]. now rewrite <- IH.
  - exists n. rewrite append_cons_left. now rewrite <- IH.
Qed.

Lemma trimRightSlash_no_trailing s t :
  trimRightSlash s <> t ++ "/".
Proof.
  revert t. induction s as [|c s IH]; intros t; cbn [trimRightSlash].
  - destruct t; discriminate.
  - destruct (Ascii.eqb c "/" && (trimRightSlash s =? "")%string) eqn:E.
    + destruct t; discriminate.
    + destruct t as [|c' t].
      * rewrite append_nil_left. intros [= -> Ht]. rewrite Ht in E. discriminate.
      * rewrite append_cons_left. intros [= _ Ht]. now apply IH in Ht.
Qed.

Lemma trimRightSlash_fixed x :
  (forall t, x <> t ++ "/") -> trimRightSlash x = x.
Proof.
  induction x as [|c x IH]; intros Hx; [reflexivity|].
  cbn [trimRightSlash]. rewrite IH.
  - destruct (Ascii.eqb c "/" && (x =? "")%string) eqn:E; [|reflexivity].
    apply andb_true_iff in E as [Hc Ht].
    apply Ascii.eqb_eq in Hc. apply String.eqb_eq in Ht. subst.
    now destruct (Hx EmptyString).
  - intros t Ht. apply (Hx (String c t)). rewrite append_cons_left.
    now rewrite Ht.
Qed.

(** ** X11: normalising an argument removes exactly its trailing slashes:
    what is left has none, the argument is what is left followed by
    slashes, and normalising twice changes nothing more. *)
Theorem trimRightSlash_spec s :
  (exists n, s = trimRightSlash s ++ slashes n) /\
  (forall t, trimRightSlash s <> t ++ "/") /\
  trimRightSlash (trimRightSlash s) = trimRightSlash s.
Proof.
  split; [apply trimRightSlash_splits|].
  split; [apply trimRightSlash_no_trailing|].
  apply trimRightSlash_fixed, trimRightSlash_no_trailing.
Qed.

(** ** X12: a trailing argument is taken as the rig only when it names a
    rig and at least one bead is left before it: a lone argument is always
    a bead, and no argument list loses all its beads. *)
Theorem splitRig_spec args :
  let '(explicitRig, beadArgs) := splitRig args in
  (args <> [] -> beadArgs <> []) /\
  ((explicitRig = ""%string /\ beadArgs = args) \/
   (exists rigArg, args = (beadArgs ++ [rigArg])%list /\ beadArgs <> [] /\
                   IsRigName rigArg = (explicitRig, true))).
Proof.
  unfold splitRig.
  destruct (2 <=? length args)%nat eqn:Hlen; [|split; auto].
  apply Nat.leb_le in Hlen.
  assert (Hne : args <> []) by (intros ->; simpl in Hlen; lia).
  pose proof (app_removelast_last ""%string Hne) as Hsplit.
  destruct (IsRigName (List.last args "")) as [rigName isRig] eqn:Hrig.
  destruct isRig; [|split; auto].
  assert (Hbeads : removelast args <> []).
  { intros Hnil. rewrite Hnil in Hsplit. rewrite Hsplit in Hlen.
    simpl in Hlen. lia. }
  split; [auto|]. right. exists (List.last args ""%string). auto.
Qed.

(** The child made of a dependency row and of the outcome of its
    lookup. *)
Definition childFrom (dep : depRow) (r : error + beadInfo) : member :=
  match r with
  | inl _ => mkMember (dep_ID dep) (dep_Title dep) (dep_Status dep) "" []
  | inr info => mkMember (dep_ID dep) (bi_Title info) (bi_Status info)
                         (bi_Assignee info) (bi_Labels info)
  end.

(** [lookedUp deps w children w']: every row was looked up once, in
    order, starting in world [w] and ending in [w'], each lookup in the
    world the one before left, and [children] holds the child of each row
    and of the outcome of its own lookup. *)
Inductive lookedUp : list depRow -> W -> list member -> W -> Prop :=
| lookedUp_nil w : lookedUp [] w [] w
| lookedUp_cons dep deps w r w1 children w2 :
    getBeadInfo (dep_ID dep) w = (r, w1) ->
    lookedUp deps w1 children w2 ->
    lookedUp (dep :: deps) w (childFrom dep r :: children) w2.

Lemma childStep_fold deps : forall children w,
  exists added w2,
    fold_left childStep deps (children, w) = ((children ++ added)%list, w2) /\
    lookedUp deps w added w2.
Proof.
  induction deps as [|dep deps IH]; intros children w; simpl.
  - exists [], w. split; [now rewrite app_nil_r | constructor].
  - destruct (getBeadInfo (dep_ID dep) w) as [r w1] eqn:Hlook.
    destruct (IH (children ++ [childFrom dep r])%list w1)
      as (added & w2 & Hfold & Hall).
    exists (childFrom dep r :: added), w2. split.
    + rewrite <- app_assoc in Hfold. cbn [app] in Hfold.
      rewrite <- Hfold. now destruct r.
    + now apply (lookedUp_cons dep deps w r w1).
Qed.

Lemma lookedUp_ids deps w children w2 :
  lookedUp deps w children w2 -> map m_ID children = map dep_ID deps.
Proof.
  induction 1 as [|dep deps w r w1 children w2 Hlook _ IH]; [reflexivity|].
  simpl. rewrite IH. now destruct r.
Qed.

Lemma lookedUp_reads deps w children w2 :
  (forall id w', snd (getBeadInfo id w') = w') ->
  lookedUp deps w children w2 ->
  w2 = w /\
  children =
    map (fun dep => childFrom dep (fst (getBeadInfo (dep_ID dep) w))) deps.
Proof.
  intros Hro. induction 1 as [|dep deps w r w1 children w2 Hlook _ IH].
  - split; reflexivity.
  - pose proof (Hro (dep_ID dep) w) as Hw. rewrite Hlook in Hw. simpl in Hw.
    subst w1. destruct IH as [-> ->]. split; [reflexivity|].
    simpl. now rewrite Hlook.
Qed.

(** ** X13: [getEpicChildren] keeps every dependency row, in order: each
    row is looked up once, in the world the lookup before left; a child
    whose lookup fails keeps the title and status of its row and has
    neither assignee nor labels, a child whose lookup succeeds carries the
    title, status, assignee and labels looked up.  With lookups that only
    read, the children are the rows mapped through their lookups and the
    world is the one the dependency query left.  No dependencies give an
    empty list without error. *)
Theorem getEpicChildren_keeps_every_row epicID w :
  (forall deps w1,
     bdDepList epicID w = (DepRows deps, w1) ->
     exists children w2,
       getEpicChildren epicID w = (inr children, w2) /\
       lookedUp deps w1 children w2 /\
       map m_ID children = map dep_ID deps /\
       ((forall id w', snd (getBeadInfo id w') = w') ->
        w2 = w1 /\
        children =
          map (fun dep => childFrom dep (fst (getBeadInfo (dep_ID dep) w1)))
              deps)) /\
  (forall w1,
     bdDepList epicID w = (DepNone, w1) ->
     getEpicChildren epicID w = (inr [], w1)).
Proof.
  split.
  - intros deps w1 Hq. unfold getEpicChildren. rewrite Hq.
    destruct (childStep_fold deps [] w1) as (added & w2 & Hfold & Hall).
    rewrite Hfold. exists added, w2. split; [reflexivity|].
    split; [exact Hall|]. split; [now apply (lookedUp_ids deps w1 added w2)|].
    intros Hro. now apply lookedUp_reads.
  - intros w1 Hq. unfold getEpicChildren. now rewrite Hq.
Qed.

(** *** Properties of the filter loops *)

(** Members the loop has dealt with by counting them. *)
Definition accounted (fs : filterState) : nat :=
  (length (candidates fs) + skippedClosed fs + skippedAssigned fs
   + skippedQueued fs + skippedNoRig fs)%nat.

(** What makes a member a candidate, apart from the queued label. *)
Definition eligible (townRoot : string) (opts : groupQueueOpts) (m : member)
    (c : queueCandidate) : Prop :=
  m_Status m <> "closed"%string /\ m_Status m <> "tombstone"%string /\
  (m_Assignee m = ""%string \/ go_Force opts = true) /\
  resolveRigForBead townRoot (m_ID m) <> ""%string /\
  c = mkCandidate (m_ID m) (m_Title m) (resolveRigForBead townRoot (m_ID m)).

Definition isUnchecked (l : line) : bool :=
  match l with ItemUnchecked _ _ => true | _ => false end.

Definition unchecked (out : list line) : nat :=
  length (List.filter isUnchecked out).

Lemma unchecked_app out l :
  unchecked (out ++ [l]) = (unchecked out + if isUnchecked l then 1 else 0)%nat.
Proof.
  unfold unchecked. rewrite List.filter_app, length_app. simpl.
  destruct (isUnchecked l); reflexivity.
Qed.

Lemma guards_eligible townRoot opts m :
  (m_Status m =? "closed")%string || (m_Status m =? "tombstone")%string = false ->
  negb (m_Assignee m =? "")%string && negb (go_Force opts) = false ->
  (resolveRigForBead townRoot (m_ID m) =? "")%string = false ->
  eligible townRoot opts m
    (mkCandidate (m_ID m) (m_Title m) (resolveRigForBead townRoot (m_ID m))).
Proof.
  intros Hst Has Hrig. apply orb_false_iff in Hst as [Hc Ht].
  apply String.eqb_neq in Hc, Ht, Hrig.
  repeat split; auto.
  apply andb_false_iff in Has as [Ha|Hf].
  - left. apply negb_false_iff, String.eqb_eq in Ha. exact Ha.
  - right. now apply negb_false_iff in Hf.
Qed.

Definition epicChosen (townRoot : string) (opts : groupQueueOpts)
    (children : list member) (c : queueCandidate) : Prop :=
  exists m, In m children /\ eligible townRoot opts m c /\
            hasQueuedLabel (m_Labels m) = false.

Lemma epicFilterStep_spec townRoot opts fs m s :
  let r := epicFilterStep townRoot opts fs m s in
  fst (snd r) = fst s /\
  accounted (fst r) = S (accounted fs) /\
  (candidates (fst r) = candidates fs \/
   exists c, candidates (fst r) = (candidates fs ++ [c])%list /\
             eligible townRoot opts m c /\
             hasQueuedLabel (m_Labels m) = false).
Proof.
  unfold epicFilterStep, resolveCandidate, accounted.
  destruct (_ || _) eqn:Hst; [simpl; repeat split; auto; lia|].
  destruct (negb _ && negb _) eqn:Has; [simpl; repeat split; auto; lia|].
  destruct (hasQueuedLabel (m_Labels m)) eqn:Hq;
    [simpl; repeat split; auto; lia|].
  destruct (resolveRigForBead townRoot (m_ID m) =? "")%string eqn:Hrig.
  - unfold bind, print, ret. simpl. repeat split; auto; lia.
  - unfold ret. simpl. rewrite length_app. simpl.
    split; [reflexivity|]. split; [lia|]. right. eexists. split; [reflexivity|].
    split; [now apply guards_eligible | reflexivity].
Qed.

Lemma epicFilter_fold townRoot opts children : forall fs s,
  let r := foldM (epicFilterStep townRoot opts) children fs s in
  fst (snd r) = fst s /\
  accounted (fst r) = (accounted fs + length children)%nat /\
  exists added,
    candidates (fst r) = (candidates fs ++ added)%list /\
    Forall (epicChosen townRoot opts children) added.
Proof.
  induction children as [|m children IH]; intros fs s.
  - simpl. unfold ret. simpl. split; [reflexivity|]. split; [lia|].
    exists []. split; [now rewrite app_nil_r | constructor].
  - cbv zeta. cbn [foldM]. unfold bind.
    pose proof (epicFilterStep_spec townRoot opts fs m s) as Hstep.
    cbv zeta in Hstep.
    destruct (epicFilterStep townRoot opts fs m s) as [fs1 s1].
    cbn [fst snd] in Hstep. destruct Hstep as (Hw & Hacc & Hcand).
    specialize (IH fs1 s1). cbv zeta in IH.
    destruct (foldM (epicFilterStep townRoot opts) children fs1 s1) as [fs2 s2].
    cbn [fst snd length] in IH |- *. destruct IH as (Hw2 & Hacc2 & added & Hadd & Hall).
    split; [congruence|]. split; [lia|].
    assert (Hlift : Forall (epicChosen townRoot opts (m :: children)) added).
    { eapply Forall_impl; [exact Hall|].
      intros c (m' & Hin & Hrest). exists m'. split; [now right | exact Hrest]. }
    destruct Hcand as [Hsame|(c & Hc & Hel & Hq)].
    + exists added. rewrite Hadd, Hsame. auto.
    + exists (c :: added). rewrite Hadd, Hc, <- app_assoc.
      split; [reflexivity|]. constructor; [|exact Hlift].
      exists m. split; [now left | auto].
Qed.

(** ** X14: the epic filter reads only: it leaves the world as it was,
    accounts for every child exactly once (as a candidate or under one of
    the four skip counters), and every candidate is a child that is
    neither closed nor tombstoned, is unassigned unless forced, does not
    carry the queued label and has a resolvable rig, which is the one
    recorded. *)
Theorem epicFilter_accounts townRoot opts children s :
  let r := epicFilter townRoot opts children s in
  fst (snd r) = fst s /\
  accounted (fst r) = length children /\
  Forall (epicChosen townRoot opts children) (candidates (fst r)).
Proof.
  pose proof (epicFilter_fold townRoot opts children noCandidates s) as H.
  cbv zeta in H |- *. unfold epicFilter.
  destruct H as (Hw & Hacc & added & Hadd & Hall).
  split; [exact Hw|]. split; [exact Hacc|]. rewrite Hadd. exact Hall.
Qed.

Definition convoyChosen (townRoot : string) (opts : groupQueueOpts)
    (tracked : list member) (c : queueCandidate) : Prop :=
  exists m w info,
    In m tracked /\ eligible townRoot opts m c /\
    fst (getBeadInfo (m_ID m) w) = inr info /\
    hasQueuedLabel (bi_Labels info) = false.

Lemma convoyFilterStep_spec townRoot opts fs m s :
  let r := convoyFilterStep townRoot opts fs m s in
  (accounted (fst r) + unchecked (snd (snd r)) =
   S (accounted fs + unchecked (snd s)))%nat /\
  (candidates (fst r) = candidates fs \/
   exists c w info,
     candidates (fst r) = (candidates fs ++ [c])%list /\
     eligible townRoot opts m c /\
     fst (getBeadInfo (m_ID m) w) = inr info /\
     hasQueuedLabel (bi_Labels info) = false).
Proof.
  unfold convoyFilterStep, resolveCandidate, accounted.
  destruct (_ || _) eqn:Hst; [simpl; split; [lia | auto]|].
  destruct (negb _ && negb _) eqn:Has; [simpl; split; [lia | auto]|].
  unfold bind, call, print, ret.
  destruct (getBeadInfo (m_ID m) (fst s)) as [r w'] eqn:Hlook.
  destruct r as [err|info].
  - cbv zeta. cbn [fst snd]. rewrite unchecked_app. simpl.
    split; [lia | auto].
  - destruct (hasQueuedLabel (bi_Labels info)) eqn:Hq;
      [simpl; split; [lia | auto]|].
    destruct (resolveRigForBead townRoot (m_ID m) =? "")%string eqn:Hrig.
    + cbv zeta. cbn [fst snd]. rewrite unchecked_app. simpl.
      split; [lia | auto].
    + cbv zeta. cbn [fst snd addCandidate candidates skippedClosed
                     skippedAssigned skippedQueued skippedNoRig].
      rewrite length_app. simpl. split; [lia|].
      right. eexists _, (fst s), info. split; [reflexivity|].
      split; [now apply guards_eligible|]. now rewrite Hlook.
Qed.

Lemma convoyFilter_fold townRoot opts tracked : forall fs s,
  let r := foldM (convoyFilterStep townRoot opts) tracked fs s in
  (accounted (fst r) + unchecked (snd (snd r)) =
   accounted fs + unchecked (snd s) + length tracked)%nat /\
  exists added,
    candidates (fst r) = (candidates fs ++ added)%list /\
    Forall (convoyChosen townRoot opts tracked) added.
Proof.
  induction tracked as [|m tracked IH]; intros fs s.
  - simpl. unfold ret. simpl. split; [lia|].
    exists []. split; [now rewrite app_nil_r | constructor].
  - cbv zeta. cbn [foldM]. unfold bind.
    pose proof (convoyFilterStep_spec townRoot opts fs m s) as Hstep.
    cbv zeta in Hstep.
    destruct (convoyFilterStep townRoot opts fs m s) as [fs1 s1].
    cbn [fst snd] in Hstep. destruct Hstep as (Hacc & Hcand).
    specialize (IH fs1 s1). cbv zeta in IH.
    destruct (foldM (convoyFilterStep townRoot opts) tracked fs1 s1) as [fs2 s2].
    cbn [fst snd length] in IH |- *. destruct IH as (Hacc2 & added & Hadd & Hall).
    split; [lia|].
    assert (Hlift : Forall (convoyChosen townRoot opts (m :: tracked)) added).
    { eapply Forall_impl; [exact Hall|].
      intros c (m' & w & info & Hin & Hrest).
      exists m', w, info. split; [now right | exact Hrest]. }
    destruct Hcand as [Hsame|(c & w & info & Hc & Hel & Hlook & Hq)].
    + exists added. rewrite Hadd, Hsame. auto.
    + exists (c :: added). rewrite Hadd, Hc, <- app_assoc.
      split; [reflexivity|]. constructor; [|exact Hlift].
      exists m, w, info. split; [now left | auto].
Qed.

(** ** X15: the convoy filter accounts for every tracked issue exactly
    once: as a candidate, under a skip counter, or as a reported lookup
    failure; and every candidate was looked up, is neither closed nor
    tombstoned, is unassigned unless forced, is not queued and has a
    resolvable rig. *)
Theorem convoyFilter_accounts townRoot opts tracked s :
  let r := convoyFilter townRoot opts tracked s in
  (accounted (fst r) + unchecked (snd (snd r)) =
   length tracked + unchecked (snd s))%nat /\
  Forall (convoyChosen townRoot opts tracked) (candidates (fst r)).
Proof.
  pose proof (convoyFilter_fold townRoot opts tracked noCandidates s) as H.
  cbv zeta in H |- *. unfold convoyFilter.
  destruct H as (Hacc & added & Hadd & Hall).
  split; [unfold accounted in *; simpl in *; lia|]. rewrite Hadd. exact Hall.
Qed.

(** *** Properties of the entry points *)

(** ** X16: in [--on] mode a malformed invocation fails with nothing
    written; otherwise exactly one enqueue is made, of the [--on] target
    (never of an argument), for a non-empty rig, with the first argument
    as the formula. *)
Theorem runFormulaOnBeadEnqueue_spec fl queueOnTarget args s :
  (exists err, runFormulaOnBeadEnqueue fl queueOnTarget args s = (Some err, s)) \/
  (exists rigName,
     rigName <> ""%string /\
     (length args = 1 \/ length args = 2)%nat /\
     queueFormula fl = ""%string /\ queueHookRawBead fl = false /\
     runFormulaOnBeadEnqueue fl queueOnTarget args s =
     call (enqueueBead queueOnTarget rigName
             (taskEnqueueOptions fl (List.hd "" args))) s).
Proof.
  unfold runFormulaOnBeadEnqueue.
  destruct (length args =? 0)%nat eqn:E0; [left; unfold ret; eauto|].
  destruct (2 <? length args)%nat eqn:E2; [left; unfold ret; eauto|].
  destruct (queueFormula fl =? "")%string eqn:Ef; simpl;
    [|left; unfold ret; eauto].
  destruct (queueHookRawBead fl) eqn:Eh; [left; unfold ret; eauto|].
  apply Nat.eqb_neq in E0. apply Nat.ltb_ge in E2. apply String.eqb_eq in Ef.
  assert (Hlen : (length args = 1 \/ length args = 2)%nat) by lia.
  assert (Hresolve :
    (exists err,
       match FindFromCwdOrError with
       | inl err => ret (Some err)
       | inr townRoot =>
           if (resolveRigForBead townRoot queueOnTarget =? "")%string
           then ret (Some (ErrMsg "cannot resolve rig"))
           else call (enqueueBead queueOnTarget
                        (resolveRigForBead townRoot queueOnTarget)
                        (taskEnqueueOptions fl (List.hd "" args)))
       end s = (Some err, s)) \/
    (exists rigName, rigName <> ""%string /\
       match FindFromCwdOrError with
       | inl err => ret (Some err)
       | inr townRoot =>
           if (resolveRigForBead townRoot queueOnTarget =? "")%string
           then ret (Some (ErrMsg "cannot resolve rig"))
           else call (enqueueBead queueOnTarget
                        (resolveRigForBead townRoot queueOnTarget)
                        (taskEnqueueOptions fl (List.hd "" args)))
       end s =
       call (enqueueBead queueOnTarget rigName
               (taskEnqueueOptions fl (List.hd "" args))) s)).
  { destruct FindFromCwdOrError as [err|townRoot]; [left; unfold ret; eauto|].
    destruct (resolveRigForBead townRoot queueOnTarget =? "")%string eqn:Er;
      [left; unfold ret; eauto|].
    apply String.eqb_neq in Er. right. eauto. }
  destruct (length args =? 2)%nat.
  - destruct (IsRigName (nth 1 args "")) as [rigName isRig].
    destruct isRig; [|left; unfold ret; eauto].
    destruct (rigName =? "")%string eqn:Er.
    + destruct Hresolve as [[err H]|(rig & Hne & H)]; [left; eauto|].
      right. exists rig. auto.
    + apply String.eqb_neq in Er. right. exists rigName. auto.
  - cbn [String.eqb].
    destruct Hresolve as [[err H]|(rig & Hne & H)]; [left; eauto|].
    right. exists rig. auto.
Qed.

(** ** X17: a single bead is enqueued once and the outcome of the enqueue
    is returned as it is; a rig named after the bead overrides the rig of
    the bead's prefix; without any rig the command fails and writes
    nothing. *)
Theorem runTaskQueueEnqueue_single fl townRoot beadID s :
  FindFromCwdOrError = inr townRoot ->
  let eopts := taskEnqueueOptions fl
                 (resolveFormula (queueFormula fl) (queueHookRawBead fl)) in
  (resolveRigForBead townRoot beadID = ""%string ->
     exists err, runTaskQueueEnqueue fl [beadID] s = (Some err, s)) /\
  (resolveRigForBead townRoot beadID <> ""%string ->
     runTaskQueueEnqueue fl [beadID] s =
     call (enqueueBead beadID (resolveRigForBead townRoot beadID) eopts) s) /\
  (forall rigArg rigName,
     IsRigName rigArg = (rigName, true) -> rigName <> ""%string ->
     runTaskQueueEnqueue fl [beadID; rigArg] s =
     call (enqueueBead beadID rigName eopts) s).
Proof.
  intros Hroot eopts. unfold runTaskQueueEnqueue. rewrite Hroot.
  split; [|split].
  - intros Hrig. unfold splitRig. simpl. rewrite Hrig. simpl.
    unfold ret. eauto.
  - intros Hrig. unfold splitRig. simpl.
    apply String.eqb_neq in Hrig. now rewrite Hrig.
  - intros rigArg rigName Hname Hne. unfold splitRig.
    cbn [length Nat.leb List.last]. rewrite Hname.
    cbn [removelast length Nat.eqb List.hd].
    apply String.eqb_neq in Hne. now rewrite !Hne.
Qed.

Lemma validateNoTaskOnlyFlags_none_iff mode :
  validateNoTaskOnlyFlags mode = None <->
  forall name, In name taskOnlyFlagNames -> flagChanged name = false.
Proof.
  unfold validateNoTaskOnlyFlags, usedTaskOnlyFlags. split.
  - intros Hnone name Hin.
    destruct (flagChanged name) eqn:Hch; [|reflexivity].
    assert (Hf : In name (List.filter flagChanged taskOnlyFlagNames))
      by (apply filter_In; auto).
    destruct (List.filter flagChanged taskOnlyFlagNames); [inversion Hf|].
    simpl in Hnone. discriminate.
  - intros Hall.
    assert (Hf : List.filter flagChanged taskOnlyFlagNames = []).
    { destruct (List.filter flagChanged taskOnlyFlagNames) as [|x l] eqn:E;
        [reflexivity|].
      assert (Hx : In x (List.filter flagChanged taskOnlyFlagNames))
        by (rewrite E; now left).
      apply filter_In in Hx as [Hin Hch]. rewrite (Hall x Hin) in Hch.
      discriminate. }
    rewrite Hf. reflexivity.
Qed.

Section ReadOnlyEntry.

Hypothesis getBeadInfo_reads : forall id w, snd (getBeadInfo id w) = w.

Lemma hd_map_trim args :
  List.hd ""%string (map trimRightSlash args) =
  trimRightSlash (List.hd ""%string args).
Proof. now destruct args. Qed.

(** ** X18: the entry point without [--on], on the first argument with
    its trailing slashes removed: an identifier that cannot be resolved fails
    with nothing written; a convoy or an epic fails with nothing written
    when it comes with further arguments or with one of the ten task-only
    flags, and is otherwise handed alone to its own command; anything else
    goes, with every argument normalised, to the task command. *)
Theorem runQueueEnqueue_routes fl args s :
  args <> [] ->
  let first := trimRightSlash (List.hd ""%string args) in
  let misused :=
    (1 < length args)%nat \/
    (exists name, In name taskOnlyFlagNames /\ flagChanged name = true) in
  (forall err, idTypeOf (fst s) first = inl err ->
     runQueueEnqueue fl "" args s = (Some err, s)) /\
  (idTypeOf (fst s) first = inr "convoy"%string ->
     (misused -> exists err, runQueueEnqueue fl "" args s = (Some err, s)) /\
     (~ misused ->
        runQueueEnqueue fl "" args s =
        runConvoyQueueByID first (groupOptsOf fl) s)) /\
  (idTypeOf (fst s) first = inr "epic"%string ->
     (misused -> exists err, runQueueEnqueue fl "" args s = (Some err, s)) /\
     (~ misused ->
        runQueueEnqueue fl "" args s =
        runEpicQueueByID first (groupOptsOf fl) s)) /\
  (forall kind, idTypeOf (fst s) first = inr kind ->
     kind <> "convoy"%string -> kind <> "epic"%string ->
     runQueueEnqueue fl "" args s =
     runTaskQueueEnqueue fl (map trimRightSlash args) s).
Proof using getBeadInfo_reads.
  intros _ first misused. unfold runQueueEnqueue. cbn [String.eqb negb].
  unfold bind. rewrite hd_map_trim. fold first.
  rewrite (detectQueueIDType_reads getBeadInfo_reads). rewrite length_map.
  assert (Hflags : forall mode,
            (exists name, In name taskOnlyFlagNames /\
                          flagChanged name = true) ->
            validateNoTaskOnlyFlags mode <> None).
  { intros mode (name & Hin & Hch) Hnone.
    pose proof (proj1 (validateNoTaskOnlyFlags_none_iff mode) Hnone name Hin)
      as Hno.
    rewrite Hno in Hch. discriminate. }
  assert (Hclean : forall mode,
            ~ misused -> validateNoTaskOnlyFlags mode = None).
  { intros mode Hno. apply validateNoTaskOnlyFlags_none_iff.
    intros name Hin. destruct (flagChanged name) eqn:Hch; [|reflexivity].
    exfalso. apply Hno. right. eauto. }
  assert (Hgroup : forall mode (run : M (option error)),
    (misused ->
       exists err,
         (if (1 <? length args)%nat
          then ret (Some (ErrMsg (mode ++ " mode accepts exactly one "
                                       ++ mode ++ " ID")))
          else match validateNoTaskOnlyFlags mode with
               | Some err => ret (Some err)
               | None => run
               end) s = (Some err, s)) /\
    (~ misused ->
       (if (1 <? length args)%nat
        then ret (Some (ErrMsg (mode ++ " mode accepts exactly one "
                                     ++ mode ++ " ID")))
        else match validateNoTaskOnlyFlags mode with
             | Some err => ret (Some err)
             | None => run
             end) s = run s)).
  { intros mode run. split.
    - intros Hbad.
      destruct (1 <? length args)%nat eqn:Hlen; [unfold ret; eauto|].
      destruct Hbad as [Hbad|Hbad]; [apply Nat.ltb_ge in Hlen; lia|].
      specialize (Hflags mode Hbad).
      destruct (validateNoTaskOnlyFlags mode); [unfold ret; eauto|congruence].
    - intros Hno. rewrite (Hclean mode Hno).
      destruct (1 <? length args)%nat eqn:Hlen; [|reflexivity].
      exfalso. apply Hno. left. now apply Nat.ltb_lt. }
  split; [|split; [|split]].
  - intros err ->. reflexivity.
  - intros ->. cbn [String.eqb Ascii.eqb Bool.eqb].
    exact (Hgroup "convoy"%string _).
  - intros ->. cbn [String.eqb Ascii.eqb Bool.eqb].
    exact (Hgroup "epic"%string _).
  - intros kind -> Hc He.
    apply String.eqb_neq in Hc, He. now rewrite Hc, He.
Qed.

End ReadOnlyEntry.

End WithWorld.

(** *** A concrete town *)

(** The world of the examples: the beads enqueued so far, in order, and
    the number of [bd show] lookups made. *)
Record town := mkTown {
  tw_queued : list string;
  tw_lookups : nat
}.

Definition demoTable (id : string) : error + beadInfo :=
  if (id =? "gt-a")%string then inr (mkBeadInfo "A" "open" "" [] "task")
  else if (id =? "gt-b")%string then inr (mkBeadInfo "B" "open" "" [] "task")
  else if (id =? "gt-e")%string then inr (mkBeadInfo "E" "open" "" [] "epic")
  else if (id =? "gt-l")%string then
    inr (mkBeadInfo "L" "open" "" ["urgent"; "gt:convoy"; "gt:epic"] "task")
  else inl (ErrMsg "bead not found").

(** [bd show] as a pure read. *)
Definition demoShow (id : string) (w : town) : (error + beadInfo) * town :=
  (demoTable id, w).

(** [bd show] with every lookup counted. *)
Definition countingShow (id : string) (w : town) : (error + beadInfo) * town :=
  (demoTable id, mkTown (tw_queued w) (S (tw_lookups w))).

Definition demoVerify (id : string) (w : town) : option error * town :=
  (None, w).

(** Enqueueing [gt-b] fails (its formula does not cook); a dry run
    changes nothing; any other bead is appended to the queue. *)
Definition demoEnqueue (id rig : string) (eopts : EnqueueOptions) (w : town)
  : option error * town :=
  if (id =? "gt-b")%string then (Some (ErrMsg "formula does not cook"), w)
  else if eo_DryRun eopts then (None, w)
  else (None, mkTown (tw_queued w ++ [id]) (tw_lookups w)).

Definition demoMembers : list member :=
  [mkMember "gt-a" "A" "open" "" []; mkMember "gt-b" "B" "open" "" [];
   mkMember "gt-z" "Z" "closed" "" []].

Definition demoTracked (townBeads convoyID : string) (w : town)
  : (error + list member) * town := (inr demoMembers, w).

Definition demoDeps (epicID : string) (w : town) : depListOut * town :=
  (DepRows [mkDepRow "gt-a" "A" "open"; mkDepRow "gt-b" "B" "open";
            mkDepRow "gt-gone" "Z" "closed"], w).

Definition demoHasQueued (labels : list string) : bool :=
  existsb (String.eqb LabelQueued) labels.

Definition demoRig (townRoot id : string) : string :=
  if String.prefix "gt-" id then "gastown" else "".

Definition demoFormula (formula : string) (hookRaw : bool) : string :=
  if hookRaw then "" else
  if (formula =? "")%string then "mol-polecat-work" else formula.

Definition demoIsRig (name : string) : string * bool :=
  if (name =? "gastown")%string then ("gastown", true) else ("", false).

Definition demoRoot : error + string := inr "/town".

Definition demoJoin (parts : list string) : string := String.concat "/" parts.

Definition demoStart : town * list line := (mkTown [] 0, []).

Definition liveOpts : groupQueueOpts := mkGroupQueueOpts "mol-polecat-work" false false false.
Definition dryOpts : groupQueueOpts := mkGroupQueueOpts "mol-polecat-work" false false true.

Definition demoFlags : queueFlags :=
  mkQueueFlags "" false "" [] "" "" false false false false false "" "" false.

Definition demoConvoy :=
  runConvoyQueueByID town demoShow demoVerify demoEnqueue demoTracked
    demoHasQueued demoRig demoRoot demoJoin.
Definition demoEpic :=
  runEpicQueueByID town demoShow demoVerify demoEnqueue demoDeps
    demoHasQueued demoRig demoRoot.
Definition demoTask :=
  runTaskQueueEnqueue town demoShow demoEnqueue demoRig demoFormula demoIsRig
    demoRoot.

Lemma detectQueueIDType_classifies_witness :
  detectQueueIDType town countingShow "hq-cv-1" demoStart
    = (inr "convoy"%string, demoStart) /\
  detectQueueIDType town countingShow "gt-e" demoStart
    = (inr "epic"%string, (mkTown [] 1, [])) /\
  detectQueueIDType town countingShow "gt-l" demoStart
    = (inr "convoy"%string, (mkTown [] 1, [])) /\
  detectQueueIDType town countingShow "gt-a" demoStart
    = (inr "task"%string, (mkTown [] 1, [])).
Proof.
  split; [|split; [|split]].
  - apply (proj1 (detectQueueIDType_classifies town countingShow
                    "hq-cv-1" demoStart)).
    reflexivity.
  - refine (proj1 (proj2 (detectQueueIDType_classifies town countingShow
                            "gt-e" demoStart) _ _ _ _) _);
      reflexivity.
  - refine (proj1 (proj2 (proj2 (proj2 (proj2 (detectQueueIDType_classifies
              town countingShow "gt-l" demoStart) _ _ _ _)) _ _))
              ["urgent"%string] ["gt:epic"%string] _ _ _);
      try reflexivity; try discriminate;
      simpl; intros [H|[]]; discriminate.
  - refine (proj2 (proj2 (proj2 (proj2 (proj2 (detectQueueIDType_classifies
              town countingShow "gt-a" demoStart) _ _ _ _)) _ _)) _ _);
      try reflexivity; try discriminate; simpl; prop_solve.
Defined.

Definition demoFs : filterState :=
  mkFilterState [mkCandidate "gt-a" "A" "gastown"; mkCandidate "gt-b" "B" "gastown"]
                1 0 0 0.

(** A live convoy fan-out: [gt-a] is enqueued, [gt-b] fails and is
    reported, the command succeeds; an epic fan-out and a task batch
    behave alike.  The convoy dry run lists both candidates and enqueues
    nothing.  A task batch whose second bead is an epic makes no attempt
    and fails. *)
Lemma batch_enqueue_policy_witness :
  (exists r out',
     demoConvoy "hq-cv-1" liveOpts demoStart = (r, (mkTown ["gt-a"] 0, out')) /\
     (r <> None <-> successes [None; Some (ErrMsg "formula does not cook")] = 0%nat)) /\
  demoConvoy "hq-cv-1" dryOpts demoStart
    = (None, (mkTown [] 0, [Note "DRY-RUN"; WouldQueue "gt-a"; WouldQueue "gt-b"])) /\
  (exists r out',
     demoEpic "gt-e" liveOpts demoStart = (r, (mkTown ["gt-a"] 0, out')) /\
     (r <> None <-> successes [None; Some (ErrMsg "formula does not cook")] = 0%nat)) /\
  (exists r out',
     demoTask demoFlags ["gt-b"; "gt-a"; "gastown"] demoStart
       = (r, (mkTown ["gt-a"] 0, out')) /\
     (r <> None <-> successes [Some (ErrMsg "formula does not cook"); None] = 0%nat)) /\
  (exists r out',
     demoTask demoFlags ["gt-a"; "gt-e"] demoStart = (r, (mkTown [] 0, out')) /\
     (r <> None <-> successes [] = 0%nat)).
Proof.
  pose proof (batch_enqueue_policy town demoShow demoVerify demoEnqueue
                demoTracked demoDeps demoHasQueued demoRig demoFormula
                demoIsRig demoRoot demoJoin) as (Hconvoy & Hepic & Htask & _).
  assert (Hne : candidates demoFs <> []) by discriminate.
  split; [|split; [|split; [|split]]].
  - destruct (Hconvoy "hq-cv-1"%string liveOpts demoStart demoFs demoStart
                eq_refl Hne) as [Hlive _].
    exact (proj2 (Hlive eq_refl)).
  - destruct (Hconvoy "hq-cv-1"%string dryOpts demoStart demoFs demoStart
                eq_refl Hne) as [_ Hdry].
    exact (Hdry eq_refl).
  - destruct (Hepic "gt-e"%string liveOpts demoStart demoFs demoStart
                eq_refl Hne) as [Hlive _].
    exact (proj2 (Hlive eq_refl)).
  - refine (proj2 (Htask demoFlags ["gt-b"; "gt-a"; "gastown"]%string
                     "/town"%string "gastown"%string ["gt-b"; "gt-a"]%string
                     demoStart eq_refl eq_refl _)).
    simpl. lia.
  - refine (proj2 (Htask demoFlags ["gt-a"; "gt-e"]%string
                     "/town"%string ""%string ["gt-a"; "gt-e"]%string
                     demoStart eq_refl eq_refl _)).
    simpl. lia.
Defined.

(** ** C4 (counterexample): a convoy dry run with two surviving candidates
    enqueues nothing, so its success count is zero, and yet returns no
    error. *)
Lemma convoy_dry_run_succeeds_with_no_enqueue :
  exists r w' out',
    convoyCandidates town demoShow demoVerify demoTracked demoHasQueued
      demoRig demoRoot demoJoin "hq-cv-1" dryOpts demoStart
      = (Continue demoFs, demoStart) /\
    candidates demoFs <> [] /\
    demoConvoy "hq-cv-1" dryOpts demoStart = (r, (w', out')) /\
    ~ (r <> None <-> length (tw_queued w') = 0%nat).
Proof.
  eexists _, _, _. split; [vm_compute; reflexivity|].
  split; [discriminate|]. split; [vm_compute; reflexivity|].
  simpl. intros [_ H]. now apply H.
Qed.

(** A batch whose second identifier is an epic is rejected with nothing
    enqueued, even though the first bead alone would have been queued. *)
Lemma runTaskQueueEnqueue_validates_before_write_witness :
  (exists err, demoTask demoFlags ["gt-a"; "gt-e"] demoStart = (Some err, demoStart)) /\
  (exists err, demoTask demoFlags ["gt-a"; "hq-cv-1"] demoStart = (Some err, demoStart)) /\
  (exists err, demoTask demoFlags ["gt-a"; "gt-b"; "gt-missing"] demoStart
               = (Some err, demoStart)).
Proof.
  split; [|split].
  - refine (runTaskQueueEnqueue_validates_before_write town demoShow demoEnqueue
              demoRig demoFormula demoIsRig demoRoot (fun _ _ => eq_refl)
              demoFlags ["gt-a"; "gt-e"]%string "/town"%string ""%string
              ["gt-a"; "gt-e"]%string demoStart _ _ _ _).
    + reflexivity.
    + vm_compute. reflexivity.
    + simpl. lia.
    + exists "gt-e"%string. split; [simpl; auto|]. right. left. reflexivity.
  - refine (runTaskQueueEnqueue_validates_before_write town demoShow demoEnqueue
              demoRig demoFormula demoIsRig demoRoot (fun _ _ => eq_refl)
              demoFlags ["gt-a"; "hq-cv-1"]%string "/town"%string ""%string
              ["gt-a"; "hq-cv-1"]%string demoStart _ _ _ _).
    + reflexivity.
    + vm_compute. reflexivity.
    + simpl. lia.
    + exists "hq-cv-1"%string. split; [simpl; auto|]. left. reflexivity.
  - refine (runTaskQueueEnqueue_validates_before_write town demoShow demoEnqueue
              demoRig demoFormula demoIsRig demoRoot (fun _ _ => eq_refl)
              demoFlags ["gt-a"; "gt-b"; "gt-missing"]%string "/town"%string
              ""%string ["gt-a"; "gt-b"; "gt-missing"]%string demoStart _ _ _ _).
    + reflexivity.
    + vm_compute. reflexivity.
    + simpl. lia.
    + exists "gt-missing"%string. split; [simpl; auto|]. right. right.
      eexists. reflexivity.
Defined.

(** The children of the epic of the examples: the two beads the store
    knows with their own titles, the third with the fields of its row. *)
Lemma getEpicChildren_keeps_every_row_witness :
  getEpicChildren town demoShow demoDeps "gt-e" (mkTown [] 0)
  = (inr [mkMember "gt-a" "A" "open" "" []; mkMember "gt-b" "B" "open" "" [];
          mkMember "gt-gone" "Z" "closed" "" []], mkTown [] 0).
Proof.
  destruct (proj1 (getEpicChildren_keeps_every_row town demoShow demoDeps
                     "gt-e"%string (mkTown [] 0)) _ _ eq_refl)
    as (children & w2 & Hrun & _ & _ & Hreads).
  destruct (Hreads (fun _ _ => eq_refl)) as [-> ->]. exact Hrun.
Defined.

(** [gt queue <id>...] in the town of the examples, for a given set of
    changed flags. *)
Definition demoQueue (changed : string -> bool) :=
  runQueueEnqueue town demoShow demoVerify demoEnqueue demoTracked demoDeps
    demoHasQueued demoRig demoFormula demoIsRig demoRoot demoJoin changed.

Definition noFlagChanged (name : string) : bool := false.
Definition mergeChanged (name : string) : bool := (name =? "merge")%string.

(** [zz-1] has no rig of its own: alone it is refused, with a rig named
    it is enqueued there; [gt-a] goes to the rig of its prefix. *)
Lemma runTaskQueueEnqueue_single_witness :
  (exists err, demoTask demoFlags ["zz-1"] demoStart = (Some err, demoStart)) /\
  demoTask demoFlags ["gt-a"] demoStart = (None, (mkTown ["gt-a"] 0, [])) /\
  demoTask demoFlags ["zz-1"; "gastown"] demoStart
    = (None, (mkTown ["zz-1"] 0, [])).
Proof.
  split; [|split].
  - refine (proj1 (runTaskQueueEnqueue_single town demoShow demoEnqueue
                     demoRig demoFormula demoIsRig demoRoot demoFlags
                     "/town"%string "zz-1"%string demoStart eq_refl) _).
    reflexivity.
  - refine (proj1 (proj2 (runTaskQueueEnqueue_single town demoShow demoEnqueue
                     demoRig demoFormula demoIsRig demoRoot demoFlags
                     "/town"%string "gt-a"%string demoStart eq_refl)) _).
    vm_compute. discriminate.
  - refine (proj2 (proj2 (runTaskQueueEnqueue_single town demoShow demoEnqueue
                     demoRig demoFormula demoIsRig demoRoot demoFlags
                     "/town"%string "zz-1"%string demoStart eq_refl))
                  "gastown"%string "gastown"%string _ _).
    + reflexivity.
    + discriminate.
Defined.

(** An epic with a second argument and a convoy with [--merge] are
    refused with nothing written; an epic alone goes to the epic command,
    a task with its rig to the task command, both without their trailing
    slashes; an unknown identifier is refused. *)
Lemma runQueueEnqueue_routes_witness :
  (exists err, demoQueue noFlagChanged demoFlags "" ["gt-e/"; "gt-a"] demoStart
               = (Some err, demoStart)) /\
  (exists err, demoQueue mergeChanged demoFlags "" ["hq-cv-1"] demoStart
               = (Some err, demoStart)) /\
  demoQueue noFlagChanged demoFlags "" ["gt-e/"] demoStart
    = demoEpic "gt-e" (groupOptsOf demoFormula demoFlags) demoStart /\
  demoQueue noFlagChanged demoFlags "" ["gt-a/"; "gastown//"] demoStart
    = demoTask demoFlags ["gt-a"; "gastown"] demoStart /\
  demoQueue noFlagChanged demoFlags "" ["gt-missing"] demoStart
    = (Some (ErrWrap "cannot resolve bead" (ErrMsg "bead not found")),
       demoStart).
Proof.
  assert (Hroutes := fun changed args =>
            runQueueEnqueue_routes town demoShow demoVerify demoEnqueue
              demoTracked demoDeps demoHasQueued demoRig demoFormula
              demoIsRig demoRoot demoJoin changed (fun _ _ => eq_refl)
              demoFlags args demoStart).
  cbv zeta in Hroutes.
  split; [|split; [|split; [|split]]].
  - destruct (Hroutes noFlagChanged ["gt-e/"; "gt-a"]%string)
      as (_ & _ & Hepic & _); [discriminate|].
    apply (proj1 (Hepic eq_refl)). left. simpl. lia.
  - destruct (Hroutes mergeChanged ["hq-cv-1"]%string)
      as (_ & Hconvoy & _ & _); [discriminate|].
    apply (proj1 (Hconvoy eq_refl)). right. exists "merge"%string.
    split; [simpl; tauto | reflexivity].
  - destruct (Hroutes noFlagChanged ["gt-e/"]%string)
      as (_ & _ & Hepic & _); [discriminate|].
    apply (proj2 (Hepic eq_refl)).
    intros [Hlen|(name & _ & Hch)]; [simpl in Hlen; lia | discriminate].
  - destruct (Hroutes noFlagChanged ["gt-a/"; "gastown//"]%string)
      as (_ & _ & _ & Htask); [discriminate|].
    apply (Htask "task"%string); [reflexivity | discriminate | discriminate].
  - destruct (Hroutes noFlagChanged ["gt-missing"]%string)
      as (Hunknown & _); [discriminate|].
    apply Hunknown. reflexivity.
Defined.

End Router.

(** ** Pause and resume ([queue.go]) *)
Module StateStore.

(** Queue global state, as persisted in [.runtime/queue-state.json]. *)
Record QueueState := mkQueueState {
  Paused : bool;
  PausedBy : string;
  PausedAt : string;
  LastDispatchAt : string;
  LastDispatchCount : Z
}.

Section WithFiles.

Variable W : Type.
Local Abbreviation M := (cmd W).

(** Helpers of the package that live in other files. *)
Variable LoadQueueState : string -> W -> (error + QueueState) * W.
Variable SaveQueueState : string -> QueueState -> W -> option error * W.
Variable SetPaused : QueueState -> string -> QueueState.
Variable SetResumed : QueueState -> QueueState.
Variable detectActor : string.
Variable FindFromCwdOrError : error + string.

Definition runQueuePause : M (option error) :=
  match FindFromCwdOrError with
  | inl err => ret (Some err)
  | inr townRoot =>
      let* r := call (LoadQueueState townRoot) in
      match r with
      | inl err => ret (Some (ErrWrap "loading queue state" err))
      | inr state =>
          if Paused state then
            print (Note "Queue is already paused") ;; ret None
          else
            let actor := detectActor in
            let state := SetPaused state actor in
            let* failed := call (SaveQueueState townRoot state) in
            match failed with
            | Some err => ret (Some (ErrWrap "saving queue state" err))
            | None => print (Note "Queue paused") ;; ret None
            end
      end
  end.

Definition runQueueResume : M (option error) :=
  match FindFromCwdOrError with
  | inl err => ret (Some err)
  | inr townRoot =>
      let* r := call (LoadQueueState townRoot) in
      match r with
      | inl err => ret (Some (ErrWrap "loading queue state" err))
      | inr state =>
          if negb (Paused state) then
            print (Note "Queue is not paused") ;; ret None
          else
            let state := SetResumed state in
            let* failed := call (SaveQueueState townRoot state) in
            match failed with
            | Some err => ret (Some (ErrWrap "saving queue state" err))
            | None => print (Note "Queue resumed") ;; ret None
            end
      end
  end.

(** *** Properties *)

(** ** C9: a pause of a paused queue and a resume of a queue that is not
    paused succeed, and the world they leave is the one [LoadQueueState]
    left: [SaveQueueState] is not run, whatever it would do. *)
Theorem redundant_pause_resume_write_free townRoot state s w1 :
  FindFromCwdOrError = inr townRoot ->
  LoadQueueState townRoot (fst s) = (inr state, w1) ->
  (Paused state = true ->
     runQueuePause s = (None, (w1, (snd s ++ [Note "Queue is already paused"])%list))) /\
  (Paused state = false ->
     runQueueResume s = (None, (w1, (snd s ++ [Note "Queue is not paused"])%list))).
Proof.
  intros Hroot Hload. unfold runQueuePause, runQueueResume.
  rewrite Hroot. unfold bind, call, ret, print. rewrite Hload.
  split; intros ->; reflexivity.
Qed.

(** The effective transitions do save. *)
Lemma runQueuePause_saves townRoot state s w1 :
  FindFromCwdOrError = inr townRoot ->
  LoadQueueState townRoot (fst s) = (inr state, w1) ->
  Paused state = false ->
  exists r out',
    runQueuePause s =
    (r, (snd (SaveQueueState townRoot (SetPaused state detectActor) w1), out')).
Proof.
  intros Hroot Hload Hp. unfold runQueuePause.
  rewrite Hroot. unfold bind, call, ret, print. rewrite Hload, Hp. simpl.
  destruct (SaveQueueState _ _ w1) as [[e|] w2]; simpl; eauto.
Qed.

End WithFiles.

(** *** The state file *)

(** Modelled from the spec: [LoadQueueState], [SaveQueueState], [SetPaused]
    and [SetResumed] of the queue state store (section 4.5), which are not
    among the source files.  The world is the content of the state file
    (absent before the first write) and the number of writes made. *)
Record files := mkFiles {
  stateFile : option QueueState;
  writes : nat
}.

Definition defaultState : QueueState := mkQueueState false "" "" "" 0.

Definition fileLoad (townRoot : string) (w : files) : (error + QueueState) * files :=
  (inr (match stateFile w with Some st => st | None => defaultState end), w).

Definition fileSave (townRoot : string) (st : QueueState) (w : files)
  : option error * files :=
  (None, mkFiles (Some st) (S (writes w))).

Definition setPausedAt (now : string) (st : QueueState) (actor : string)
  : QueueState :=
  mkQueueState true actor now (LastDispatchAt st) (LastDispatchCount st).

Definition setResumed (st : QueueState) : QueueState :=
  mkQueueState false "" "" (LastDispatchAt st) (LastDispatchCount st).

Definition pausedFile : files :=
  mkFiles (Some (mkQueueState true "mayor/" "2026-02-19T10:00:00Z"
                              "2026-02-19T09:57:00Z" 3)) 1.

Definition activeFile : files :=
  mkFiles (Some (mkQueueState false "" "" "2026-02-19T09:57:00Z" 3)) 4.

Definition demoPause :=
  runQueuePause files fileLoad fileSave (setPausedAt "2026-02-20T08:00:00Z")
    "witness/" (inr "/town").
Definition demoResume :=
  runQueueResume files fileLoad fileSave setResumed (inr "/town").

Lemma redundant_pause_resume_write_free_witness :
  demoPause (pausedFile, []) = (None, (pausedFile, [Note "Queue is already paused"])) /\
  demoResume (activeFile, []) = (None, (activeFile, [Note "Queue is not paused"])).
Proof.
  split.
  - refine (proj1 (redundant_pause_resume_write_free files fileLoad fileSave
                     (setPausedAt "2026-02-20T08:00:00Z") setResumed "witness/"
                     (inr "/town"%string) "/town"%string _ (pausedFile, [])
                     pausedFile eq_refl eq_refl) eq_refl).
  - refine (proj2 (redundant_pause_resume_write_free files fileLoad fileSave
                     (setPausedAt "2026-02-20T08:00:00Z") setResumed "witness/"
                     (inr "/town"%string) "/town"%string _ (activeFile, [])
                     activeFile eq_refl eq_refl) eq_refl).
Defined.

(** On the state-file model the redundant commands leave the file and the
    write count as they were, whatever the clock and the actor. *)
Lemma redundant_pause_keeps_file clock actor townRoot w out st :
  stateFile w = Some st -> Paused st = true ->
  runQueuePause files fileLoad fileSave (setPausedAt clock) actor (inr townRoot)
    (w, out) = (None, (w, (out ++ [Note "Queue is already paused"])%list)).
Proof.
  intros Hfile Hp. unfold runQueuePause, bind, call, ret, print, fileLoad.
  simpl. now rewrite Hfile, Hp.
Qed.

Lemma redundant_resume_keeps_file townRoot w out :
  Paused (match stateFile w with Some st => st | None => defaultState end) = false ->
  runQueueResume files fileLoad fileSave setResumed (inr townRoot) (w, out)
  = (None, (w, (out ++ [Note "Queue is not paused"])%list)).
Proof.
  intros Hp. unfold runQueueResume, bind, call, ret, print, fileLoad.
  simpl. now rewrite Hp.
Qed.

(** By contrast an effective pause writes the file once. *)
Example pause_of_active_queue_writes :
  demoPause (activeFile, []) =
  (None, (mkFiles (Some (mkQueueState true "witness/" "2026-02-20T08:00:00Z"
                                      "2026-02-19T09:57:00Z" 3)) 5,
          [Note "Queue paused"])).
Proof. reflexivity. Qed.

End StateStore.

(** ** Search directories, status, list and clear ([queue.go]) *)
Module Commands.
Import Resolver StateStore.

(** A directory entry as [os.ReadDir] returns it. *)
Record dirEntry := mkDirEntry {
  de_Name : string;
  de_IsDir : bool
}.

(** Locals of [beadsSearchDirs]. *)
Record dirsState := mkDirsState {
  ds_dirs : list string;
  ds_seen : gset string
}.

(** What [gt queue status] reports in either output format. *)
Record statusReport := mkStatusReport {
  sr_Paused : bool;
  sr_PausedBy : string;
  sr_QueuedTotal : nat;
  sr_QueuedReady : nat;
  sr_ActivePolecats : nat;
  sr_LastDispatchAt : string;
  sr_Beads : list queuedBeadInfo
}.

Section WithTown.

Variable W : Type.
Local Abbreviation M := (cmd W).

(** The file system: [os.ReadDir], whether [os.Stat] succeeds, and
    [filepath.Join]. *)
Variable ReadDir : string -> error + list dirEntry.
Variable Stat : string -> bool.
Variable Join : list string -> string.
(** The issue store of the current world, queried per directory. *)
Variable ParseQueueMetadata : string -> option QueueMetadata.
Variable bdReady : W -> string -> bdOut readyBead.
Variable bdList : W -> string -> bdOut rawBead.
(** Helpers of the package that live in other files. *)
Variable LoadQueueState : string -> W -> (error + QueueState) * W.
Variable dequeueBeadLabels : string -> W -> option error * W.
Variable countActivePolecats : W -> nat.
Variable FindFromCwdOrError : error + string.

(** [if _, err := os.Stat(probe); err == nil && !seen[path]] *)
Definition addDir (st : dirsState) (path probe : string) : dirsState :=
  if Stat probe && negb (bool_decide (path ∈ ds_seen st)) then
    mkDirsState (ds_dirs st ++ [path]) ({[ path ]} ∪ ds_seen st)
  else st.

(** Body of [for _, e := range entries]. *)
Definition entryStep (townRoot : string) (st : dirsState) (e : dirEntry)
  : dirsState :=
  if negb (de_IsDir e) || String.prefix "." (de_Name e)
     || (de_Name e =? "mayor")%string || (de_Name e =? "settings")%string
  then st
  else
    let rigDir := Join [townRoot; de_Name e] in
    let beadsDir := Join [rigDir; ".beads"] in
    let st := addDir st rigDir beadsDir in
    let mayorRigDir := Join [rigDir; "mayor"; "rig"] in
    let mayorBeadsDir := Join [mayorRigDir; ".beads"] in
    addDir st mayorRigDir mayorBeadsDir.

Definition beadsSearchDirs (townRoot : string) : list string :=
  let st := mkDirsState [townRoot] {[ townRoot ]} in
  match ReadDir townRoot with
  | inl _ => ds_dirs st
  | inr entries => ds_dirs (fold_left (entryStep townRoot) entries st)
  end.

(** [listQueuedBeads(townRoot)] and [listAllQueueLabeledBeadIDs(townRoot)]
    against the store of world [w]. *)
Definition listQueued (townRoot : string) (w : W)
  : error + list queuedBeadInfo :=
  listQueuedBeads ParseQueueMetadata (bdReady w) (bdList w)
                  (beadsSearchDirs townRoot).

Definition listAllIDs (townRoot : string) (w : W) : error + list string :=
  listAllQueueLabeledBeadIDs (bdList w) (beadsSearchDirs townRoot).

(** [for _, b := range queued { if !b.Blocked { readyCount++ } }] *)
Definition countReady (queued : list queuedBeadInfo) : nat :=
  fold_left (fun n b => if negb (Blocked b) then S n else n) queued 0%nat.

(** [runQueueStatus]: the figures it prints, or the error it returns. *)
Definition runQueueStatus : M (error + statusReport) :=
  match FindFromCwdOrError with
  | inl err => ret (inl err)
  | inr townRoot =>
      let* r := call (LoadQueueState townRoot) in
      match r with
      | inl err => ret (inl (ErrWrap "loading queue state" err))
      | inr queueState =>
          let* listed := call (fun w => (listQueued townRoot w, w)) in
          match listed with
          | inl err => ret (inl (ErrWrap "listing queued beads" err))
          | inr queued =>
              let* activePolecats := call (fun w => (countActivePolecats w, w)) in
              ret (inr (mkStatusReport (Paused queueState) (PausedBy queueState)
                          (length queued) (countReady queued) activePolecats
                          (LastDispatchAt queueState) queued))
          end
      end
  end.

(** [byRig[b.TargetRig] = append(byRig[b.TargetRig], b)] *)
Definition groupStep (byRig : gmap string (list queuedBeadInfo))
    (b : queuedBeadInfo) : gmap string (list queuedBeadInfo) :=
  <[ InfoTargetRig b := (default [] (byRig !! InfoTargetRig b) ++ [b])%list ]> byRig.

(** The grouping of [runQueueList]. *)
Definition groupByRig (queued : list queuedBeadInfo)
  : gmap string (list queuedBeadInfo) :=
  fold_left groupStep queued ∅.

(** Body of the loop of [runQueueClear] over all identifiers. *)
Definition clearStep (cleared : nat) (id : string) : M nat :=
  let* failed := call (dequeueBeadLabels id) in
  match failed with
  | Some err => print (ItemFailed id err) ;; ret cleared
  | None => ret (S cleared)
  end.

(** [runQueueClear]; the closing message prints the number cleared, the
    first figure of [Summary]. *)
Definition runQueueClear (queueClearBead : string) : M (option error) :=
  match FindFromCwdOrError with
  | inl err => ret (Some err)
  | inr townRoot =>
      if negb (queueClearBead =? "")%string then
        let* failed := call (dequeueBeadLabels queueClearBead) in
        match failed with
        | Some err => ret (Some (ErrWrap "clearing bead from queue" err))
        | None => print (Note "Removed from queue") ;; ret None
        end
      else
        let* listed := call (fun w => (listAllIDs townRoot w, w)) in
        match listed with
        | inl err => ret (Some (ErrWrap "listing queued beads" err))
        | inr ids =>
            if (length ids =? 0)%nat then
              print (Note "Queue is already empty.") ;; ret None
            else
              let* cleared := Router.foldM W clearStep ids 0%nat in
              print (Summary cleared (length ids)) ;; ret None
        end
  end.

(** *** Properties of the search directories *)

Definition dirsInv (townRoot : string) (st : dirsState) : Prop :=
  (exists rest, ds_dirs st = townRoot :: rest) /\
  (forall d, d ∈ ds_seen st <-> In d (ds_dirs st)) /\
  NoDup (ds_dirs st) /\
  (forall d, In d (ds_dirs st) ->
     d = townRoot \/ Stat (Join [d; ".beads"]) = true).

Lemma addDir_inv townRoot st path :
  dirsInv townRoot st ->
  dirsInv townRoot (addDir st path (Join [path; ".beads"])).
Proof.
  intros Hinv. unfold addDir.
  destruct (Stat (Join [path; ".beads"])) eqn:Hs; simpl; [|exact Hinv].
  destruct (bool_decide (path ∈ ds_seen st)) eqn:E; simpl; [exact Hinv|].
  destruct Hinv as ([rest Hhd] & Hseen & Hnd & Hstat).
  apply bool_decide_eq_false in E. repeat split.
  - exists (rest ++ [path])%list. now rewrite Hhd.
  - simpl. rewrite elem_of_union, elem_of_singleton, in_app_iff. simpl.
    intros [->|H]; [right; now left | left; now apply Hseen].
  - simpl. rewrite elem_of_union, elem_of_singleton, in_app_iff. simpl.
    intros [H|[<-|[]]]; [right; now apply Hseen | now left].
  - apply NoDup_app. split; [exact Hnd|]. split; [|apply NoDup_singleton].
    intros d Hin Hd. apply list_elem_of_singleton in Hd. subst d.
    apply E, Hseen. now apply list_elem_of_In.
  - intros d Hd. apply in_app_iff in Hd as [Hd|[<-|[]]]; [now apply Hstat|].
    now right.
Qed.

Lemma entryStep_inv townRoot st e :
  dirsInv townRoot st -> dirsInv townRoot (entryStep townRoot st e).
Proof.
  intros Hinv. unfold entryStep.
  destruct (_ || _); [exact Hinv|]. now do 2 apply addDir_inv.
Qed.

Lemma entryStep_fold_inv townRoot entries : forall st,
  dirsInv townRoot st ->
  dirsInv townRoot (fold_left (entryStep townRoot) entries st).
Proof.
  induction entries as [|e entries IH]; intros st Hinv; simpl; [exact Hinv|].
  apply IH. now apply entryStep_inv.
Qed.

(** ** X6: the town root always comes first, no directory is returned
    twice, every further directory holds a [.beads] entry, and an
    unreadable town root leaves the root alone. *)
Theorem beadsSearchDirs_spec townRoot :
  (exists rest, beadsSearchDirs townRoot = townRoot :: rest) /\
  NoDup (beadsSearchDirs townRoot) /\
  (forall d, In d (beadsSearchDirs townRoot) ->
     d = townRoot \/ Stat (Join [d; ".beads"]) = true) /\
  (forall err, ReadDir townRoot = inl err ->
     beadsSearchDirs townRoot = [townRoot]).
Proof.
  assert (Hinit : dirsInv townRoot (mkDirsState [townRoot] {[ townRoot ]})).
  { repeat split; simpl.
    - now exists [].
    - intros H. apply elem_of_singleton in H. now left.
    - intros [<-|[]]. now apply elem_of_singleton.
    - apply NoDup_singleton.
    - intros d [<-|[]]. now left. }
  unfold beadsSearchDirs. cbv zeta.
  destruct (ReadDir townRoot) as [err|entries].
  - destruct Hinit as (H1 & _ & H3 & H4). repeat split; auto.
  - destruct (entryStep_fold_inv townRoot entries _ Hinit) as (H1 & _ & H3 & H4).
    repeat split; auto. intros err Herr. discriminate.
Qed.

(** ** X7: entries that are files, hidden, or named [mayor] or [settings]
    add no directory, whatever they contain: a directory other than the
    root is a visible rig directory or its [mayor/rig] clone. *)
Theorem beadsSearchDirs_skips townRoot entries d :
  ReadDir townRoot = inr entries ->
  In d (beadsSearchDirs townRoot) ->
  d = townRoot \/
  exists e, In e entries /\ de_IsDir e = true /\
            String.prefix "." (de_Name e) = false /\
            de_Name e <> "mayor"%string /\ de_Name e <> "settings"%string /\
            (d = Join [townRoot; de_Name e] \/
             d = Join [Join [townRoot; de_Name e]; "mayor"; "rig"]).
Proof.
  intros Hread. unfold beadsSearchDirs. cbv zeta. rewrite Hread.
  assert (Hgen : forall es st,
    In d (ds_dirs (fold_left (entryStep townRoot) es st)) ->
    In d (ds_dirs st) \/
    exists e, In e es /\ de_IsDir e = true /\
              String.prefix "." (de_Name e) = false /\
              de_Name e <> "mayor"%string /\ de_Name e <> "settings"%string /\
              (d = Join [townRoot; de_Name e] \/
               d = Join [Join [townRoot; de_Name e]; "mayor"; "rig"])).
  { induction es as [|e es IH]; intros st Hd; simpl in Hd; [now left|].
    apply IH in Hd as [Hd|(e' & He' & Hrest)];
      [|right; exists e'; split; [now right | exact Hrest]].
    unfold entryStep in Hd.
    destruct (de_IsDir e) eqn:Hdir; simpl in Hd; [|now left].
    destruct (String.prefix "." (de_Name e)) eqn:Hdot; simpl in Hd; [now left|].
    destruct (de_Name e =? "mayor")%string eqn:Hm; simpl in Hd; [now left|].
    destruct (de_Name e =? "settings")%string eqn:Hs; simpl in Hd; [now left|].
    apply String.eqb_neq in Hm, Hs.
    assert (Hadd : forall st0 path probe,
              In d (ds_dirs (addDir st0 path probe)) ->
              In d (ds_dirs st0) \/ d = path).
    { intros st0 path probe H. unfold addDir in H.
      destruct (_ && _); simpl in H; [|now left].
      apply in_app_iff in H as [H|[<-|[]]]; auto. }
    apply Hadd in Hd as [Hd|Hd].
    - apply Hadd in Hd as [Hd|Hd]; [now left|].
      right. exists e. split; [now left|].
      split; [exact Hdir|]. split; [exact Hdot|]. split; [exact Hm|].
      split; [exact Hs|]. left. exact Hd.
    - right. exists e. split; [now left|].
      split; [exact Hdir|]. split; [exact Hdot|]. split; [exact Hm|].
      split; [exact Hs|]. right. exact Hd. }
  intros Hd. apply Hgen in Hd as [[<-|[]]|H]; auto.
Qed.

(** *** Properties of status, list and clear *)

Lemma countReady_fold queued : forall n,
  fold_left (fun n b => if negb (Blocked b) then S n else n) queued n
  = (n + length (List.filter (fun b => negb (Blocked b)) queued))%nat.
Proof.
  induction queued as [|b queued IH]; intros n; simpl; [lia|].
  rewrite IH. destruct (Blocked b); simpl; lia.
Qed.

Lemma filter_ext_Forall {A} (f g : A -> bool) (P : A -> Prop) l :
  Forall P l -> (forall x, P x -> f x = g x) ->
  List.filter f l = List.filter g l.
Proof.
  intros Hall Hfg. induction Hall as [|x l Hx Hl IH]; [reflexivity|].
  simpl. now rewrite (Hfg x Hx), IH.
Qed.

(** ** X8: the status report counts every listed bead, and counts as
    ready exactly the listed beads that the ready queries returned with a
    description that is not circuit-broken; the ready count never exceeds
    the total, and reporting changes nothing but what loading the state
    does. *)
Theorem runQueueStatus_counts townRoot queueState w1 queued s :
  FindFromCwdOrError = inr townRoot ->
  LoadQueueState townRoot (fst s) = (inr queueState, w1) ->
  listQueued townRoot w1 = inr queued ->
  exists report,
    runQueueStatus s = (inr report, (w1, snd s)) /\
    sr_Beads report = queued /\
    sr_Paused report = Paused queueState /\
    sr_QueuedTotal report = length queued /\
    sr_QueuedReady report =
      length (List.filter
                (fun b => bool_decide
                            (ID b ∈ collectReadyIDs ParseQueueMetadata
                                      (bdReady w1) (beadsSearchDirs townRoot)))
                queued) /\
    (sr_QueuedReady report <= sr_QueuedTotal report)%nat.
Proof.
  intros Hroot Hload Hlist. unfold runQueueStatus.
  rewrite Hroot. unfold bind, call, ret. rewrite Hload. simpl. rewrite Hlist.
  eexists. split; [reflexivity|]. simpl. repeat split.
  - unfold countReady. rewrite countReady_fold. simpl.
    f_equal. unfold listQueued in Hlist.
    apply listQueuedBeads_inr in Hlist. subst queued.
    eapply filter_ext_Forall.
    + apply (dirStep_fold_listed ParseQueueMetadata (bdList w1)
               (collectReadyIDs ParseQueueMetadata (bdReady w1)
                  (beadsSearchDirs townRoot))
               (beadsSearchDirs townRoot) initListState).
      constructor.
    + intros b (_ & _ & Hb). simpl in Hb. rewrite Hb. now rewrite negb_involutive.
  - unfold countReady. rewrite countReady_fold. simpl.
    apply List.filter_length_le.
Qed.

Lemma groupStep_fold queued : forall byRig rig,
  fold_left groupStep queued byRig !! rig =
  match byRig !! rig,
        List.filter (fun b => (InfoTargetRig b =? rig)%string) queued with
  | None, [] => None
  | o, l => Some (default [] o ++ l)%list
  end.
Proof.
  induction queued as [|b queued IH]; intros byRig rig; simpl.
  - destruct (byRig !! rig) as [l|]; simpl; [now rewrite app_nil_r | reflexivity].
  - rewrite IH. unfold groupStep at 1.
    destruct (InfoTargetRig b =? rig)%string eqn:E.
    + apply String.eqb_eq in E. subst rig. rewrite lookup_insert_eq.
      destruct (List.filter _ queued); destruct (byRig !! InfoTargetRig b);
        simpl; now rewrite <- ?app_assoc.
    + apply String.eqb_neq in E. now rewrite lookup_insert_ne.
Qed.

(** ** X9: the grouping of [gt queue list] loses and duplicates nothing:
    the group of a rig is the sub-list of the beads that target it, in
    listing order, and a rig without beads has no group. *)
Theorem groupByRig_spec queued rig :
  groupByRig queued !! rig =
  match List.filter (fun b => (InfoTargetRig b =? rig)%string) queued with
  | [] => None
  | l => Some l
  end.
Proof.
  unfold groupByRig. rewrite groupStep_fold, lookup_empty.
  now destruct (List.filter _ queued).
Qed.

(** The dequeue calls of a clear-all, threaded through the world. *)
Fixpoint clearAttempts (ids : list string) (w : W) : list (option error) * W :=
  match ids with
  | [] => ([], w)
  | id :: rest =>
      let (e, w1) := dequeueBeadLabels id w in
      let (es, w2) := clearAttempts rest w1 in
      (e :: es, w2)
  end.

Lemma clearAttempts_length ids : forall w,
  length (fst (clearAttempts ids w)) = length ids.
Proof.
  induction ids as [|id ids IH]; intros w; simpl; [reflexivity|].
  destruct (dequeueBeadLabels id w) as [e w1].
  specialize (IH w1). destruct (clearAttempts ids w1). simpl in *. lia.
Qed.

Lemma foldM_clearStep ids : forall n w out,
  exists out',
    Router.foldM W clearStep ids n (w, out) =
    ((n + Router.successes (fst (clearAttempts ids w)))%nat,
     (snd (clearAttempts ids w), out')).
Proof.
  induction ids as [|id ids IH]; intros n w out; simpl.
  - exists out. unfold ret, Router.successes. simpl. f_equal. lia.
  - unfold bind at 1. unfold clearStep at 1. unfold bind at 1, call at 1.
    simpl. destruct (dequeueBeadLabels id w) as [e w1]. destruct e as [e|].
    + unfold bind, print, ret. simpl.
      destruct (IH n w1 (out ++ [ItemFailed id e])%list) as [out' Hout].
      exists out'. rewrite Hout.
      destruct (clearAttempts ids w1) as [es w2]. reflexivity.
    + unfold ret. destruct (IH (S n) w1 out) as [out' Hout].
      exists out'. rewrite Hout.
      destruct (clearAttempts ids w1) as [es w2].
      unfold Router.successes. simpl. f_equal. lia.
Qed.

(** ** X10: clear-all, once the listing succeeded, returns no error
    whatever the dequeue calls do, and makes exactly one dequeue call per
    labeled identifier, each identifier once. *)
Theorem runQueueClear_all townRoot ids s :
  FindFromCwdOrError = inr townRoot ->
  listAllIDs townRoot (fst s) = inr ids ->
  let attempts := clearAttempts ids (fst s) in
  NoDup ids /\
  length (fst attempts) = length ids /\
  exists out', runQueueClear "" s = (None, (snd attempts, out')).
Proof.
  intros Hroot Hlist attempts.
  split; [apply (listAllQueueLabeledBeadIDs_nodup (bdList (fst s)) _ ids Hlist)|].
  split; [apply clearAttempts_length|].
  unfold runQueueClear. rewrite Hroot.
  change (negb ("" =? "")%string) with false. cbv iota.
  unfold bind at 1, call at 1. cbv beta iota. rewrite Hlist.
  destruct (length ids =? 0)%nat eqn:E.
  - apply Nat.eqb_eq, length_zero_iff_nil in E. subst ids.
    unfold bind, print, ret. simpl. eauto.
  - unfold bind at 1.
    destruct (foldM_clearStep ids 0%nat (fst s) (snd s)) as [out' Hout].
    rewrite Hout. unfold bind, print, ret. simpl. eauto.
Qed.

(** Clearing one bead touches that bead only and surfaces its failure. *)
Lemma runQueueClear_one townRoot bead s :
  FindFromCwdOrError = inr townRoot ->
  bead <> ""%string ->
  exists out',
    runQueueClear bead s =
    (option_map (ErrWrap "clearing bead from queue")
                (fst (dequeueBeadLabels bead (fst s))),
     (snd (dequeueBeadLabels bead (fst s)), out')).
Proof.
  intros Hroot Hne. unfold runQueueClear. rewrite Hroot.
  apply String.eqb_neq in Hne. rewrite Hne. simpl.
  unfold bind, call, print, ret.
  destruct (dequeueBeadLabels bead (fst s)) as [[e|] w1]; simpl; eauto.
Qed.

End WithTown.

(** *** A concrete town *)

(** The world of the examples: the identifiers that carry the queue
    label, all of them in the store of the rig [gastown]. *)
Definition townFiles (dir : string) : error + list dirEntry :=
  if (dir =? "/town")%string then
    inr [mkDirEntry "gastown" true; mkDirEntry ".git" true;
         mkDirEntry "mayor" true; mkDirEntry "settings" true;
         mkDirEntry "README.md" false; mkDirEntry "scratch" true]
  else inl (ErrMsg "no such directory").

Definition townJoin (parts : list string) : string := String.concat "/" parts.

(** [mayor] holds a store too, and is skipped all the same. *)
Definition townStat (path : string) : bool :=
  (path =? "/town/gastown/.beads")%string
  || (path =? "/town/gastown/mayor/rig/.beads")%string
  || (path =? "/town/mayor/.beads")%string.

Definition townList (w : list string) (dir : string) : bdOut rawBead :=
  if (dir =? "/town/gastown")%string then
    Rows (map (fun id => mkRawBead id id "open" "fresh") w)
  else if (dir =? "/town")%string then Rows []
  else CmdFailed (ErrMsg "exit status 1").

(** Every queued bead but [gt-b] is ready. *)
Definition townReady (w : list string) (dir : string) : bdOut readyBead :=
  if (dir =? "/town/gastown")%string then
    Rows (map (fun id => mkReadyBead id "fresh")
              (List.filter (fun id => negb (id =? "gt-b")%string) w))
  else if (dir =? "/town")%string then Rows []
  else CmdFailed (ErrMsg "exit status 1").

Definition townState : QueueState := mkQueueState true "mayor" "" "" 0.

Definition townLoad (townRoot : string) (w : list string)
  : (error + QueueState) * list string := (inr townState, w).

(** The label of [gt-b] cannot be removed. *)
Definition townDequeue (id : string) (w : list string)
  : option error * list string :=
  if (id =? "gt-b")%string then (Some (ErrMsg "database is locked"), w)
  else (None, List.filter (fun x => negb (x =? id)%string) w).

Definition townQueue : list string := ["gt-a"; "gt-b"; "gt-c"].

Definition townQueued : list queuedBeadInfo :=
  [mkInfo "gt-a" "gt-a" "open" "gastown" false;
   mkInfo "gt-b" "gt-b" "open" "gastown" true;
   mkInfo "gt-c" "gt-c" "open" "gastown" false].

Definition townSearchDirs : list string :=
  beadsSearchDirs townFiles townStat townJoin "/town".

Lemma townSearchDirs_eq :
  townSearchDirs = ["/town"; "/town/gastown"; "/town/gastown/mayor/rig"]%string.
Proof. vm_compute. reflexivity. Qed.

Lemma beadsSearchDirs_skips_witness :
  "/town/gastown/mayor/rig"%string = "/town"%string \/
  exists e,
    In e [mkDirEntry "gastown" true; mkDirEntry ".git" true;
          mkDirEntry "mayor" true; mkDirEntry "settings" true;
          mkDirEntry "README.md" false; mkDirEntry "scratch" true] /\
    de_IsDir e = true /\
    String.prefix "." (de_Name e) = false /\
    de_Name e <> "mayor"%string /\ de_Name e <> "settings"%string /\
    ("/town/gastown/mayor/rig"%string = townJoin ["/town"; de_Name e] \/
     "/town/gastown/mayor/rig"%string
       = townJoin [townJoin ["/town"; de_Name e]; "mayor"; "rig"]).
Proof.
  refine (beadsSearchDirs_skips townFiles townStat townJoin "/town"%string
            _ "/town/gastown/mayor/rig"%string _ _).
  - reflexivity.
  - vm_compute. auto.
Defined.

(** Three beads are queued, two of them ready, with the queue paused. *)
Lemma runQueueStatus_counts_witness :
  exists report,
    runQueueStatus (list string) townFiles townStat townJoin
      Resolver.demoParse townReady townList townLoad (fun _ => 1%nat)
      (inr "/town"%string) (townQueue, [])
    = (inr report, (townQueue, [])) /\
    sr_Beads report = townQueued /\
    sr_Paused report = true /\
    sr_QueuedTotal report = 3%nat /\
    sr_QueuedReady report = 2%nat /\
    (sr_QueuedReady report <= sr_QueuedTotal report)%nat.
Proof.
  destruct (runQueueStatus_counts (list string) townFiles townStat townJoin
              Resolver.demoParse townReady townList townLoad (fun _ => 1%nat)
              (inr "/town"%string) "/town"%string townState townQueue
              townQueued (townQueue, []) eq_refl eq_refl)
    as (report & Hrun & Hbeads & Hpaused & Htotal & Hready & Hle).
  - vm_compute. reflexivity.
  - exists report. split; [exact Hrun|]. split; [exact Hbeads|].
    split; [exact Hpaused|]. split; [exact Htotal|].
    split; [|exact Hle]. rewrite Hready. vm_compute. reflexivity.
Defined.

(** Clear-all attempts the three beads once each and succeeds although
    [gt-b] keeps its label. *)
Lemma runQueueClear_all_witness :
  NoDup townQueue /\
  length (fst (clearAttempts (list string) townDequeue townQueue townQueue))
    = 3%nat /\
  exists out',
    runQueueClear (list string) townFiles townStat townJoin townList
      townDequeue (inr "/town"%string) "" (townQueue, [])
    = (None, (["gt-b"]%string, out')).
Proof.
  refine (runQueueClear_all (list string) townFiles townStat townJoin townList
            townDequeue (inr "/town"%string) "/town"%string townQueue
            (townQueue, []) eq_refl _).
  vm_compute. reflexivity.
Defined.

End Commands.

(** ** Metadata codec *)
Module Codec.

(** Modelled from the spec: the metadata codec ([FormatQueueMetadata],
    [ParseQueueMetadata], [StripQueueMetadata]) is not among the source
    files.  The definitions follow section 4.1 and the wire format of
    section 6 of the specification, with the delimiter and the keys of the
    field reference of [docs/design/work-queue.md]: a delimiter line, then
    one [key: value] line per field in a fixed order, one [var] line per
    variable, no escaping. *)

Definition delimiter : string := "---gt:queue:v1---".

Definition newline : ascii := "010"%char.

(** [strings.HasPrefix s pat] *)
Fixpoint hasPrefix (pat s : string) : bool :=
  match pat with
  | EmptyString => true
  | String a pat' =>
      match s with
      | EmptyString => false
      | String b s' => Ascii.eqb a b && hasPrefix pat' s'
      end
  end.

(** [strings.Index s pat]: position of the first occurrence. *)
Fixpoint indexOf (pat s : string) : option nat :=
  if hasPrefix pat s then Some 0%nat
  else match s with
       | EmptyString => None
       | String _ s' => option_map S (indexOf pat s')
       end.

(** [s[:n]] and [s[n:]] *)
Fixpoint takeStr (n : nat) (s : string) : string :=
  match n, s with
  | S n', String c s' => String c (takeStr n' s')
  | _, _ => EmptyString
  end.

Fixpoint dropStr (n : nat) (s : string) : string :=
  match n, s with
  | S n', String _ s' => dropStr n' s'
  | _, _ => s
  end.

(** [strings.Split s "\n"] *)
Fixpoint splitLines (s : string) : list string :=
  match s with
  | EmptyString => [EmptyString]
  | String c s' =>
      if Ascii.eqb c newline then EmptyString :: splitLines s'
      else match splitLines s' with
           | l :: ls => String c l :: ls
           | [] => [String c EmptyString]
           end
  end.

(** [strings.Join lines "\n"] *)
Definition joinLines (lines : list string) : string :=
  String.concat (String newline EmptyString) lines.

Fixpoint hasNewline (s : string) : bool :=
  match s with
  | EmptyString => false
  | String c s' => Ascii.eqb c newline || hasNewline s'
  end.


Definition formatBool (b : bool) : string := if b then "true" else "false".
Definition parseBool (s : string) : bool := (s =? "true")%string.

Definition formatInt (z : Z) : string :=
  DecimalString.NilEmpty.string_of_int (Z.to_int z).
(** A value that is not a decimal integer counts as zero. *)
Definition parseInt (s : string) : Z :=
  match DecimalString.NilEmpty.int_of_string s with
  | Some d => Z.of_int d
  | None => 0
  end.

Definition emptyMetadata : QueueMetadata :=
  mkQueueMetadata "" "" "" [] "" "" "" "" false "" "" false false "" 0 "".
Definition setTargetRig (m : QueueMetadata) (v : string) : QueueMetadata :=
  mkQueueMetadata v (Formula m) (Args m) (Vars m) (EnqueuedAt m) (Merge m) (Convoy m) (BaseBranch m) (NoMerge m) (Account m) (Agent m) (HookRawBead m) (Owned m) (Mode m) (DispatchFailures m) (LastFailure m).
Definition setFormula (m : QueueMetadata) (v : string) : QueueMetadata :=
  mkQueueMetadata (TargetRig m) v (Args m) (Vars m) (EnqueuedAt m) (Merge m) (Convoy m) (BaseBranch m) (NoMerge m) (Account m) (Agent m) (HookRawBead m) (Owned m) (Mode m) (DispatchFailures m) (LastFailure m).
Definition setArgs (m : QueueMetadata) (v : string) : QueueMetadata :=
  mkQueueMetadata (TargetRig m) (Formula m) v (Vars m) (EnqueuedAt m) (Merge m) (Convoy m) (BaseBranch m) (NoMerge m) (Account m) (Agent m) (HookRawBead m) (Owned m) (Mode m) (DispatchFailures m) (LastFailure m).
Definition addVar (m : QueueMetadata) (v : string) : QueueMetadata :=
  mkQueueMetadata (TargetRig m) (Formula m) (Args m) (Vars m ++ [v]) (EnqueuedAt m) (Merge m) (Convoy m) (BaseBranch m) (NoMerge m) (Account m) (Agent m) (HookRawBead m) (Owned m) (Mode m) (DispatchFailures m) (LastFailure m).
Definition setEnqueuedAt (m : QueueMetadata) (v : string) : QueueMetadata :=
  mkQueueMetadata (TargetRig m) (Formula m) (Args m) (Vars m) v (Merge m) (Convoy m) (BaseBranch m) (NoMerge m) (Account m) (Agent m) (HookRawBead m) (Owned m) (Mode m) (DispatchFailures m) (LastFailure m).
Definition setMerge (m : QueueMetadata) (v : string) : QueueMetadata :=
  mkQueueMetadata (TargetRig m) (Formula m) (Args m) (Vars m) (EnqueuedAt m) v (Convoy m) (BaseBranch m) (NoMerge m) (Account m) (Agent m) (HookRawBead m) (Owned m) (Mode m) (DispatchFailures m) (LastFailure m).
Definition setConvoy (m : QueueMetadata) (v : string) : QueueMetadata :=
  mkQueueMetadata (TargetRig m) (Formula m) (Args m) (Vars m) (EnqueuedAt m) (Merge m) v (BaseBranch m) (NoMerge m) (Account m) (Agent m) (HookRawBead m) (Owned m) (Mode m) (DispatchFailures m) (LastFailure m).
Definition setBaseBranch (m : QueueMetadata) (v : string) : QueueMetadata :=
  mkQueueMetadata (TargetRig m) (Formula m) (Args m) (Vars m) (EnqueuedAt m) (Merge m) (Convoy m) v (NoMerge m) (Account m) (Agent m) (HookRawBead m) (Owned m) (Mode m) (DispatchFailures m) (LastFailure m).
Definition setNoMerge (m : QueueMetadata) (v : bool) : QueueMetadata :=
  mkQueueMetadata (TargetRig m) (Formula m) (Args m) (Vars m) (EnqueuedAt m) (Merge m) (Convoy m) (BaseBranch m) v (Account m) (Agent m) (HookRawBead m) (Owned m) (Mode m) (DispatchFailures m) (LastFailure m).
Definition setAccount (m : QueueMetadata) (v : string) : QueueMetadata :=
  mkQueueMetadata (TargetRig m) (Formula m) (Args m) (Vars m) (EnqueuedAt m) (Merge m) (Convoy m) (BaseBranch m) (NoMerge m) v (Agent m) (HookRawBead m) (Owned m) (Mode m) (DispatchFailures m) (LastFailure m).
Definition setAgent (m : QueueMetadata) (v : string) : QueueMetadata :=
  mkQueueMetadata (TargetRig m) (Formula m) (Args m) (Vars m) (EnqueuedAt m) (Merge m) (Convoy m) (BaseBranch m) (NoMerge m) (Account m) v (HookRawBead m) (Owned m) (Mode m) (DispatchFailures m) (LastFailure m).
Definition setHookRawBead (m : QueueMetadata) (v : bool) : QueueMetadata :=
  mkQueueMetadata (TargetRig m) (Formula m) (Args m) (Vars m) (EnqueuedAt m) (Merge m) (Convoy m) (BaseBranch m) (NoMerge m) (Account m) (Agent m) v (Owned m) (Mode m) (DispatchFailures m) (LastFailure m).
Definition setOwned (m : QueueMetadata) (v : bool) : QueueMetadata :=
  mkQueueMetadata (TargetRig m) (Formula m) (Args m) (Vars m) (EnqueuedAt m) (Merge m) (Convoy m) (BaseBranch m) (NoMerge m) (Account m) (Agent m) (HookRawBead m) v (Mode m) (DispatchFailures m) (LastFailure m).
Definition setMode (m : QueueMetadata) (v : string) : QueueMetadata :=
  mkQueueMetadata (TargetRig m) (Formula m) (Args m) (Vars m) (EnqueuedAt m) (Merge m) (Convoy m) (BaseBranch m) (NoMerge m) (Account m) (Agent m) (HookRawBead m) (Owned m) v (DispatchFailures m) (LastFailure m).
Definition setDispatchFailures (m : QueueMetadata) (v : Z) : QueueMetadata :=
  mkQueueMetadata (TargetRig m) (Formula m) (Args m) (Vars m) (EnqueuedAt m) (Merge m) (Convoy m) (BaseBranch m) (NoMerge m) (Account m) (Agent m) (HookRawBead m) (Owned m) (Mode m) v (LastFailure m).
Definition setLastFailure (m : QueueMetadata) (v : string) : QueueMetadata :=
  mkQueueMetadata (TargetRig m) (Formula m) (Args m) (Vars m) (EnqueuedAt m) (Merge m) (Convoy m) (BaseBranch m) (NoMerge m) (Account m) (Agent m) (HookRawBead m) (Owned m) (Mode m) (DispatchFailures m) v.

(** One [key: value] line; a line without [": "] or with an unknown key is
    ignored. *)
Definition applyLine (m : QueueMetadata) (line : string) : QueueMetadata :=
  match indexOf ": " line with
  | None => m
  | Some i =>
      let key := takeStr i line in
      let value := dropStr (i + 2) line in
      if (key =? "target_rig")%string then setTargetRig m value
      else if (key =? "formula")%string then setFormula m value
      else if (key =? "args")%string then setArgs m value
      else if (key =? "var")%string then addVar m value
      else if (key =? "enqueued_at")%string then setEnqueuedAt m value
      else if (key =? "merge")%string then setMerge m value
      else if (key =? "convoy")%string then setConvoy m value
      else if (key =? "base_branch")%string then setBaseBranch m value
      else if (key =? "no_merge")%string then setNoMerge m (parseBool value)
      else if (key =? "account")%string then setAccount m value
      else if (key =? "agent")%string then setAgent m value
      else if (key =? "hook_raw_bead")%string then setHookRawBead m (parseBool value)
      else if (key =? "owned")%string then setOwned m (parseBool value)
      else if (key =? "mode")%string then setMode m value
      else if (key =? "dispatch_failures")%string then setDispatchFailures m (parseInt value)
      else if (key =? "last_failure")%string then setLastFailure m value
      else m
  end.

Definition kv (key value : string) : string := key ++ ": " ++ value.

Definition fieldLines (m : QueueMetadata) : list string :=
  ([kv "target_rig" (TargetRig m);
    kv "formula" (Formula m);
    kv "args" (Args m)]
   ++ map (kv "var") (Vars m)
   ++ [kv "enqueued_at" (EnqueuedAt m);
       kv "merge" (Merge m);
       kv "convoy" (Convoy m);
       kv "base_branch" (BaseBranch m);
       kv "no_merge" (formatBool (NoMerge m));
       kv "account" (Account m);
       kv "agent" (Agent m);
       kv "hook_raw_bead" (formatBool (HookRawBead m));
       kv "owned" (formatBool (Owned m));
       kv "mode" (Mode m);
       kv "dispatch_failures" (formatInt (DispatchFailures m));
       kv "last_failure" (LastFailure m)])%list.

(** Modelled from the spec: [FormatQueueMetadata] (source file missing):
    the delimiter, then the [key: value] lines in a fixed order. *)
Definition FormatQueueMetadata (m : QueueMetadata) : string :=
  joinLines (delimiter :: fieldLines m).

(** Modelled from the spec: [ParseQueueMetadata] (source file missing):
    nothing without the delimiter; otherwise the lines after it, up to the
    next delimiter or the end of the text, are read one by one. *)
Definition ParseQueueMetadata (description : string) : option QueueMetadata :=
  match indexOf delimiter description with
  | None => None
  | Some idx =>
      let rest := dropStr (idx + String.length delimiter) description in
      let section :=
        match indexOf delimiter rest with
        | Some endIdx => takeStr endIdx rest
        | None => rest
        end in
      Some (fold_left applyLine (splitLines section) emptyMetadata)
  end.

(** Modelled from the spec: [StripQueueMetadata] (source file missing):
    the text is cut at the first occurrence of the delimiter. *)
Definition StripQueueMetadata (description : string) : string :=
  match indexOf delimiter description with
  | None => description
  | Some idx => takeStr idx description
  end.






Definition sampleMetadata : QueueMetadata :=
  mkQueueMetadata "gastown" "mol-polecat-work" "fix the flaky test"
    ["base=main"; "base=main"; "depth=2"] "2026-02-19T10:00:00Z" "mr"
    "hq-cv-abc" "" true "" "codex" false true "ralph" 2 "exit status 1: timeout".

(** *** String lemmas *)






Lemma joinLines_cons l l' ls :
  joinLines (l :: l' :: ls) = l ++ String newline (joinLines (l' :: ls)).
Proof. reflexivity. Qed.


Lemma splitLines_nonempty s : splitLines s <> [].
Proof.
  destruct s as [|c s]; simpl; [discriminate|].
  destruct (Ascii.eqb c newline); [discriminate|].
  destruct (splitLines s); discriminate.
Qed.








(** *** Integers and booleans on the wire *)




Lemma uint_no_dash_prefix pat d :
  hasPrefix (String "-" pat) (NilEmpty.string_of_uint d) = false.
Proof. destruct d; reflexivity. Qed.




(** *** Lines of a formatted block *)







Lemma delimiter_clean : hasNewline delimiter = false /\ delimiter <> EmptyString.
Proof. split; [reflexivity | discriminate]. Qed.
















Lemma applyLine_blank m : applyLine m EmptyString = m.
Proof. reflexivity. Qed.














(** A formatted block starts with the delimiter, so stripping it leaves
    nothing. *)
Lemma strip_format m : StripQueueMetadata (FormatQueueMetadata m) = EmptyString.
Proof.
  unfold FormatQueueMetadata, fieldLines. cbn [app].
  rewrite joinLines_cons. reflexivity.
Qed.





(** A record whose instruction text spans two lines. *)
Definition twoLineArgs : QueueMetadata :=
  setArgs sampleMetadata ("first line" ++ String newline "second line").

(** Why the wire format forbids newlines in values: the second line of
    the instruction text is read as a line of its own and ignored. *)
Lemma two_line_args_do_not_round_trip :
  ParseQueueMetadata (FormatQueueMetadata twoLineArgs) =
    Some (setArgs sampleMetadata "first line") /\
  ParseQueueMetadata (FormatQueueMetadata twoLineArgs) <> Some twoLineArgs.
Proof.
  assert (H : ParseQueueMetadata (FormatQueueMetadata twoLineArgs) =
              Some (setArgs sampleMetadata "first line"))
    by (vm_compute; reflexivity).
  split; [exact H|]. rewrite H. vm_compute. discriminate.
Qed.

End Codec.

(** ** Issue store shared by the enqueue pipeline and the dispatch engine *)
Module Store.

(** A bead as the issue store holds it; labels are a set of flags. *)
Record Bead := mkBead {
  b_Title : string;
  b_Status : string;
  b_Assignee : string;
  b_Labels : gset string;
  b_Description : string
}.

Definition LabelQueueDispatched : string := "gt:queue-dispatched".
Definition LabelDispatchFailed : string := "gt:dispatch-failed".

(** The town: beads by identifier, the order in which the store lists
    them, the queue state file, the names of the running sessions and the
    beads tracked by some convoy. *)
Record world := mkWorld {
  beads : gmap string Bead;
  order : list string;
  queueState : option StateStore.QueueState;
  sessions : list string;
  tracked : gset string
}.

Definition withBeads (w : world) (bs : gmap string Bead) : world :=
  mkWorld bs (order w) (queueState w) (sessions w) (tracked w).

Definition withStateFile (w : world) (st : option StateStore.QueueState) : world :=
  mkWorld (beads w) (order w) st (sessions w) (tracked w).

Definition withTracked (w : world) (t : gset string) : world :=
  mkWorld (beads w) (order w) (queueState w) (sessions w) t.

Definition setDescription (b : Bead) (d : string) : Bead :=
  mkBead (b_Title b) (b_Status b) (b_Assignee b) (b_Labels b) d.

Definition setLabels (b : Bead) (ls : gset string) : Bead :=
  mkBead (b_Title b) (b_Status b) (b_Assignee b) ls (b_Description b).

Definition hasLabel (b : Bead) (l : string) : bool :=
  bool_decide (l ∈ b_Labels b).

End Store.

(** ** Enqueue pipeline *)
Module Enqueue.
Import Store Codec.
Import Router.

Section WithCollaborators.

(** Clock reading used for the enqueue timestamp. *)
Variable now : string.
(** Partition a bead identifier routes to, by its prefix. *)
Variable rigForPrefix : string -> string.
(** Formula catalogue and dry compile of a formula against a bead. *)
Variable formulaExists : string -> bool.
Variable cookFormula : string -> string -> bool.
(** Whether the store refuses to add a label to the bead. *)
Variable addLabelFails : string -> bool.

Definition metadataOf (rig : string) (opts : EnqueueOptions) : QueueMetadata :=
  mkQueueMetadata rig
    (if eo_HookRawBead opts then "" else eo_Formula opts)
    (eo_Args opts) (eo_Vars opts) now (eo_Merge opts) "" (eo_BaseBranch opts)
    (eo_NoMerge opts) (eo_Account opts) (eo_Agent opts) (eo_HookRawBead opts)
    (eo_Owned opts) (if eo_Ralph opts then "ralph" else "") 0 "".

(** The block goes after the user text, on a line of its own. *)
Definition appendBlock (base block : string) : string :=
  if (base =? "")%string then block else base ++ String newline block.

(** Modelled from the spec: [enqueueBead] ([internal/cmd/sling_queue.go])
    is not among the source files.  The steps are those of section 4.3 of
    the specification, in its order; a dry run stops before the first
    write (section 7). *)
Definition enqueueBead (id rig : string) (opts : EnqueueOptions) (w : world)
  : option error * world :=
  (* 1. the item must exist *)
  match beads w !! id with
  | None => (Some (ErrMsg "NotFound"), w)
  | Some b =>
      (* 2. cross-partition guard *)
      if negb (rigForPrefix id =? rig)%string && negb (eo_Force opts) then
        (Some (ErrMsg "GuardRejected: bead belongs to another rig"), w)
      (* 3. idempotency *)
      else if (b_Status b =? "open")%string && hasLabel b LabelQueued
              && negb (eo_Force opts) then
        (None, w)
      (* 4. status guard *)
      else if ((b_Status b =? "hooked")%string
               || (b_Status b =? "in_progress")%string)
              && negb (eo_Force opts) then
        (Some (ErrMsg "GuardRejected: bead is hooked or in progress"), w)
      else
        let meta := metadataOf rig opts in
        let needsFormula := negb (eo_HookRawBead opts)
                            && negb (Formula meta =? "")%string in
        (* 5. formula existence *)
        if needsFormula && negb (formulaExists (Formula meta)) then
          (Some (ErrMsg "FormulaInvalid: unknown formula"), w)
        (* 6. formula pre-validation *)
        else if needsFormula && negb (cookFormula (Formula meta) id) then
          (Some (ErrMsg "FormulaInvalid: formula does not cook"), w)
        else if eo_DryRun opts then (None, w)
        else
          (* 7. metadata, after stripping any earlier block *)
          let base := StripQueueMetadata (b_Description b) in
          let description := appendBlock base (FormatQueueMetadata meta) in
          (* 8. write the description: metadata present, label absent *)
          let written := setDescription b description in
          (* 9. add the label, 10. or roll the description back *)
          if addLabelFails id then
            (Some (ErrMsg "StoreUnavailable: cannot add label"),
             withBeads w (<[id := setDescription written (b_Description b)]>
                            (beads w)))
          else
            let labelled := setLabels written ({[ LabelQueued ]} ∪ b_Labels b) in
            let w1 := withBeads w (<[id := labelled]> (beads w)) in
            (* 11. tracking *)
            if eo_NoConvoy opts then (None, w1)
            else (None, withTracked w1 ({[ id ]} ∪ tracked w1))
  end.

(** *** Properties of the pipeline *)





End WithCollaborators.
End Enqueue.

(** ** Dispatch engine *)
Module Dispatch.
Import Store Codec StateStore.

Record capacityConfig := mkCapacityConfig {
  maxWorkers : Z;
  batchSize : Z
}.

(** What one dispatch cycle reports: the candidates selected, how many of
    them were handed to a worker, and the town it leaves. *)
Record outcome := mkOutcome {
  selected : list string;
  dispatched : nat;
  after : world
}.

Section WithCollaborators.

Variable now : string.
Variable config : capacityConfig.
(** Role classification of a session name: is it a worker? *)
Variable isWorker : string -> bool.
(** Whether the store holds the bead back behind a dependency. *)
Variable isBlocked : gmap string Bead -> string -> bool.
(** The execution collaborator: success, or a failure with its message. *)
Variable executeSling : string -> QueueMetadata -> option string.

(** Modelled from the spec: the dispatch engine ([dispatchQueuedWork] and
    [dispatchSingleBead] of [internal/cmd/queue_dispatch.go]) is not among
    the source files.  The definitions follow the steps of section 4.4 of
    the specification; the inter-spawn delay and the wake-up of
    supervisors have no effect on the town and are left out. *)

Definition loadState (w : world) : QueueState :=
  match queueState w with
  | Some st => st
  | None => defaultState
  end.

(** An override of zero keeps the configured value. *)
Definition applyOverride (override configured : Z) : Z :=
  if override =? 0 then configured else override.

Definition countActiveWorkers (w : world) : Z :=
  Z.of_nat (length (List.filter isWorker (sessions w))).

(** Free worker slots; [None] when the number of workers is unlimited. *)
Definition capacity (maxW active : Z) : option Z :=
  if maxW =? 0 then None else Some (Z.max 0 (maxW - active)).

(** Modelled from the spec: step 4 of the dispatch cycle (source file
    missing). *)
Definition admissionCount (maxW active batch readyCount : Z) : Z :=
  let wanted := Z.min batch readyCount in
  match capacity maxW active with
  | None => wanted
  | Some free => Z.min free wanted
  end.

Definition circuitBroken (description : string) : bool :=
  match ParseQueueMetadata description with
  | Some meta => maxDispatchFailures <=? DispatchFailures meta
  | None => false
  end.

Definition isReady (w : world) (id : string) : bool :=
  match beads w !! id with
  | Some b =>
      hasLabel b LabelQueued && negb (isBlocked (beads w) id)
      && negb (circuitBroken (b_Description b))
  | None => false
  end.

(** The ready set, deduplicated, in the order of the store. *)
Definition readySet (w : world) : list string :=
  remove_dups (List.filter (isReady w) (order w)).

Definition swapLabel (b : Bead) (new : string) : Bead :=
  setLabels b ({[ new ]} ∪ (b_Labels b ∖ {[ LabelQueued ]})).

Definition recordFailure (meta : QueueMetadata) (msg : string) : QueueMetadata :=
  setLastFailure (setDispatchFailures meta (DispatchFailures meta + 1)) msg.

(** Modelled from the spec: [dispatchSingleBead] (source file missing),
    steps 6 to 8 for one candidate; the boolean tells whether the bead was
    handed to a worker. *)
Definition dispatchSingleBead (w : world) (id : string) : world * bool :=
  match beads w !! id with
  | None => (w, false)
  | Some b =>
      let quarantine :=
        (withBeads w (<[id := swapLabel b LabelDispatchFailed]> (beads w)), false) in
      match ParseQueueMetadata (b_Description b) with
      | None => quarantine
      | Some meta =>
          if (TargetRig meta =? "")%string then quarantine
          else
            match executeSling id meta with
            | None =>
                let done := swapLabel
                              (setDescription b
                                 (StripQueueMetadata (b_Description b)))
                              LabelQueueDispatched in
                (withBeads w (<[id := done]> (beads w)), true)
            | Some msg =>
                let meta' := recordFailure meta msg in
                let b' := setDescription b
                            (Enqueue.appendBlock
                               (StripQueueMetadata (b_Description b))
                               (FormatQueueMetadata meta')) in
                if maxDispatchFailures <=? DispatchFailures meta' then
                  (withBeads w (<[id := swapLabel b' LabelDispatchFailed]>
                                  (beads w)), false)
                else (withBeads w (<[id := b']> (beads w)), false)
            end
      end
  end.

Definition dispatchStep (acc : world * nat) (id : string) : world * nat :=
  let (w', ok) := dispatchSingleBead (fst acc) id in
  (w', if ok then S (snd acc) else snd acc).

Definition recordDispatch (st : QueueState) (count : nat) : QueueState :=
  mkQueueState (Paused st) (PausedBy st) (PausedAt st) now (Z.of_nat count).

(** Modelled from the spec: [dispatchQueuedWork] (source file missing),
    one dispatch cycle; [manual] tells an operator's run from the
    periodic one. *)
Definition dispatchQueuedWork (manual : bool) (batchOverride maxOverride : Z)
    (dryRun : bool) (w : world) : outcome :=
  (* 1. pause gate *)
  let state := loadState w in
  if Paused state && negb manual then mkOutcome [] 0 w
  else
    (* 2. capacity configuration *)
    let maxW := applyOverride maxOverride (maxWorkers config) in
    let batch := applyOverride batchOverride (batchSize config) in
    (* 3. active workers *)
    let active := countActiveWorkers w in
    (* 5. ready set, 4. admission count *)
    let ready := readySet w in
    let toDispatch := admissionCount maxW active batch (Z.of_nat (length ready)) in
    let chosen := firstn (Z.to_nat toDispatch) ready in
    if dryRun then mkOutcome chosen 0 w
    else
      (* 6-8. dispatch loop *)
      let (w1, count) := fold_left dispatchStep chosen (w, 0%nat) in
      (* 11. fresh state, telemetry *)
      let fresh := loadState w1 in
      mkOutcome chosen count
                (withStateFile w1 (Some (recordDispatch fresh count))).

(** *** Properties of the engine *)

Lemma admissionCount_le_ready maxW active batch readyCount :
  admissionCount maxW active batch readyCount <= readyCount.
Proof.
  unfold admissionCount, capacity. destruct (maxW =? 0); lia.
Qed.

Lemma selected_length manual batchOverride maxOverride dryRun w :
  length (selected (dispatchQueuedWork manual batchOverride maxOverride dryRun w)) =
  if Paused (loadState w) && negb manual then 0%nat
  else Z.to_nat (admissionCount
                   (applyOverride maxOverride (maxWorkers config))
                   (countActiveWorkers w)
                   (applyOverride batchOverride (batchSize config))
                   (Z.of_nat (length (readySet w)))).
Proof.
  unfold dispatchQueuedWork.
  destruct (Paused (loadState w) && negb manual); [reflexivity|].
  set (n := admissionCount _ _ _ _).
  assert (Hlen : length (firstn (Z.to_nat n) (readySet w)) = Z.to_nat n).
  { apply firstn_length_le.
    pose proof (admissionCount_le_ready
                  (applyOverride maxOverride (maxWorkers config))
                  (countActiveWorkers w)
                  (applyOverride batchOverride (batchSize config))
                  (Z.of_nat (length (readySet w)))) as Hle.
    fold n in Hle. lia. }
  destruct dryRun; [exact Hlen|].
  destruct (fold_left dispatchStep _ _). exact Hlen.
Qed.

(** ** C6: the admission count is the least of the free worker slots
    [max 0 (maxWorkers - activeWorkers)], the batch size and the number of
    ready candidates, the first term being dropped when [maxWorkers] is
    zero; with 5 workers allowed, 3 active, a batch of 4 and 10 ready
    candidates it is 2; and a dispatch cycle that is not held back by the
    pause gate admits exactly that many candidates. *)
Theorem admission_count_formula :
  (forall maxW active batch readyCount,
     admissionCount maxW active batch readyCount =
     if maxW =? 0 then Z.min batch readyCount
     else Z.min (Z.max 0 (maxW - active)) (Z.min batch readyCount)) /\
  admissionCount 5 3 4 10 = 2 /\
  (forall active active' batch readyCount,
     admissionCount 0 active batch readyCount =
     admissionCount 0 active' batch readyCount) /\
  (forall manual batchOverride maxOverride dryRun w,
     length (selected (dispatchQueuedWork manual batchOverride maxOverride
                         dryRun w)) =
     if Paused (loadState w) && negb manual then 0%nat
     else
       let maxW := applyOverride maxOverride (maxWorkers config) in
       let batch := applyOverride batchOverride (batchSize config) in
       let readyCount := Z.of_nat (length (readySet w)) in
       Z.to_nat
         (if maxW =? 0 then Z.min batch readyCount
          else Z.min (Z.max 0 (maxW - countActiveWorkers w))
                     (Z.min batch readyCount))).
Proof.
  assert (Hformula : forall maxW active batch readyCount,
     admissionCount maxW active batch readyCount =
     if maxW =? 0 then Z.min batch readyCount
     else Z.min (Z.max 0 (maxW - active)) (Z.min batch readyCount)).
  { intros. unfold admissionCount, capacity. now destruct (maxW =? 0). }
  split; [exact Hformula|]. split; [reflexivity|]. split; [reflexivity|].
  intros. rewrite selected_length. cbv zeta. now rewrite Hformula.
Qed.

(** The dispatch of one bead neither reads nor writes the state file. *)
Lemma dispatchSingleBead_state w st id :
  dispatchSingleBead (withStateFile w st) id =
  (withStateFile (fst (dispatchSingleBead w id)) st,
   snd (dispatchSingleBead w id)).
Proof.
  unfold dispatchSingleBead. simpl.
  destruct (beads w !! id) as [b|]; [|reflexivity].
  destruct (ParseQueueMetadata (b_Description b)) as [meta|]; [|reflexivity].
  destruct (TargetRig meta =? "")%string; [reflexivity|].
  destruct (executeSling id meta) as [msg|]; [|reflexivity].
  destruct (maxDispatchFailures <=? _); reflexivity.
Qed.

Lemma dispatchStep_state st ids : forall w n,
  fold_left dispatchStep ids (withStateFile w st, n) =
  (withStateFile (fst (fold_left dispatchStep ids (w, n))) st,
   snd (fold_left dispatchStep ids (w, n))).
Proof.
  induction ids as [|id ids IH]; intros w n; simpl; [reflexivity|].
  unfold dispatchStep at 2 4 6. simpl.
  rewrite dispatchSingleBead_state.
  destruct (dispatchSingleBead w id) as [w' ok]. simpl. apply IH.
Qed.

Lemma dispatchSingleBead_keeps_state w id :
  queueState (fst (dispatchSingleBead w id)) = queueState w.
Proof.
  unfold dispatchSingleBead.
  destruct (beads w !! id) as [b|]; [|reflexivity].
  destruct (ParseQueueMetadata (b_Description b)) as [meta|]; [|reflexivity].
  destruct (TargetRig meta =? "")%string; [reflexivity|].
  destruct (executeSling id meta) as [msg|]; [|reflexivity].
  destruct (maxDispatchFailures <=? _); reflexivity.
Qed.

Lemma dispatchStep_keeps_state ids : forall w n,
  queueState (fst (fold_left dispatchStep ids (w, n))) = queueState w.
Proof.
  induction ids as [|id ids IH]; intros w n; simpl; [reflexivity|].
  unfold dispatchStep at 2. simpl.
  pose proof (dispatchSingleBead_keeps_state w id) as Hk.
  destruct (dispatchSingleBead w id) as [w' ok]. simpl in *.
  now rewrite IH.
Qed.

(** ** C7: while the state is paused an automatic invocation admits and
    dispatches nothing and leaves the town, state file included, as it
    was; a manual invocation admits, dispatches and changes beads exactly
    as it would with any other content of the state file; and no
    invocation alters the paused flag, its actor or its timestamp. *)
Theorem pause_gates_automatic_dispatch batchOverride maxOverride dryRun w :
  (Paused (loadState w) = true ->
     dispatchQueuedWork false batchOverride maxOverride dryRun w
     = mkOutcome [] 0 w) /\
  (forall st,
     let o := dispatchQueuedWork true batchOverride maxOverride dryRun w in
     let o' := dispatchQueuedWork true batchOverride maxOverride dryRun
                 (withStateFile w st) in
     selected o' = selected o /\ dispatched o' = dispatched o /\
     beads (after o') = beads (after o)) /\
  (forall manual,
     let st' := loadState (after (dispatchQueuedWork manual batchOverride
                                    maxOverride dryRun w)) in
     Paused st' = Paused (loadState w) /\
     PausedBy st' = PausedBy (loadState w) /\
     PausedAt st' = PausedAt (loadState w)).
Proof.
  split; [|split].
  - intros Hp. unfold dispatchQueuedWork. now rewrite Hp.
  - intros st. unfold dispatchQueuedWork.
    rewrite !andb_false_r.
    change (readySet (withStateFile w st)) with (readySet w).
    change (countActiveWorkers (withStateFile w st))
      with (countActiveWorkers w).
    set (chosen := firstn _ (readySet w)).
    destruct dryRun; [auto|].
    rewrite dispatchStep_state.
    destruct (fold_left dispatchStep chosen (w, 0%nat)) as [w1 n]. simpl. auto.
  - intros manual. unfold dispatchQueuedWork.
    destruct (Paused (loadState w) && negb manual); [auto|].
    destruct dryRun; [auto|].
    pose proof (dispatchStep_keeps_state
                  (firstn (Z.to_nat
                     (admissionCount
                        (applyOverride maxOverride (maxWorkers config))
                        (countActiveWorkers w)
                        (applyOverride batchOverride (batchSize config))
                        (Z.of_nat (length (readySet w))))) (readySet w))
                  w 0%nat) as Hk.
    destruct (fold_left dispatchStep _ _) as [w1 n]. simpl in *.
    unfold loadState. simpl. rewrite Hk. auto.
Qed.

End WithCollaborators.
End Dispatch.

(** ** A town with one rig: enqueue, pause, dispatch *)
Module Scenario.
Import Store Codec StateStore.

Definition clock : string := "2026-02-19T10:00:00Z".

Definition beadX : Bead := mkBead "Fix the parser" "open" "" ∅ "Steps to reproduce".

Definition town0 : world :=
  mkWorld {[ "gt-x" := beadX ]} ["gt-x"] None ["hq-mayor"] ∅.

Definition enqueueOpts : Router.EnqueueOptions :=
  Router.mkEnqueueOptions "mol-polecat-work" "" ["base=main"; "base=main"] "mr" ""
    false false false false false "" "" false false.

Definition enqueue :=
  Enqueue.enqueueBead clock (fun _ => "gastown") (fun _ => true)
    (fun _ _ => true) (fun _ => false).

(** The town after [gt-x] was enqueued for rig [gastown]. *)
Definition town1 : world := snd (enqueue "gt-x" "gastown" enqueueOpts town0).





Definition demoConfig : Dispatch.capacityConfig := Dispatch.mkCapacityConfig 5 4.

Definition isPolecat (name : string) : bool :=
  match Codec.indexOf "polecat" name with Some _ => true | None => false end.

(** Every execution succeeds. *)
Definition dispatch :=
  Dispatch.dispatchQueuedWork clock demoConfig isPolecat (fun _ _ => false)
    (fun _ _ => None).

Definition pausedState : QueueState :=
  mkQueueState true "mayor/" "2026-02-19T09:00:00Z" "" 0.

(** [gt-x] is queued and the queue was paused by the mayor. *)
Definition town2 : world := withStateFile town1 (Some pausedState).

Lemma pause_gates_automatic_dispatch_witness :
  dispatch false 0 0 false town2 = Dispatch.mkOutcome [] 0 town2 /\
  Dispatch.selected (dispatch true 0 0 false town2) = ["gt-x"] /\
  Dispatch.dispatched (dispatch true 0 0 false town2) = 1%nat.
Proof.
  split; [|split].
  - apply (proj1 (Dispatch.pause_gates_automatic_dispatch clock demoConfig
                    isPolecat (fun _ _ => false) (fun _ _ => None)
                    0 0 false town2)).
    reflexivity.
  - vm_compute. reflexivity.
  - vm_compute. reflexivity.
Defined.

(** *** The scenarios of the specification on this town *)

Definition labelsOf (w : world) (id : string) : gset string :=
  match beads w !! id with Some b => b_Labels b | None => ∅ end.

Definition descriptionOf (w : world) (id : string) : string :=
  match beads w !! id with Some b => b_Description b | None => "" end.

(** One bead is queued and ready; a run limited to one worker slot hands
    it over, swaps the label and removes the block. *)
Example enqueue_then_run :
  Dispatch.readySet (fun _ _ => false) town1 = ["gt-x"] /\
  let o := dispatch true 0 1 false town1 in
  Dispatch.dispatched o = 1%nat /\
  labelsOf (Dispatch.after o) "gt-x" = {[ LabelQueueDispatched ]} /\
  ParseQueueMetadata (descriptionOf (Dispatch.after o) "gt-x") = None.
Proof. vm_compute. auto. Qed.

(** Every execution fails. *)
Definition failingDispatch :=
  Dispatch.dispatchQueuedWork clock demoConfig isPolecat (fun _ _ => false)
    (fun _ _ => Some "spawn failed").

Definition afterFailures (n : nat) : world :=
  Nat.iter n (fun w => Dispatch.after (failingDispatch true 0 0 false w)) town1.

(** Circuit breaker: still queued after two failures, failed for good
    after the third. *)
Example circuit_breaker :
  labelsOf (afterFailures 2) "gt-x" = {[ LabelQueued ]} /\
  option_map DispatchFailures
    (ParseQueueMetadata (descriptionOf (afterFailures 2) "gt-x")) = Some 2 /\
  labelsOf (afterFailures 3) "gt-x" = {[ LabelDispatchFailed ]}.
Proof. vm_compute. auto. Qed.

(** Quarantine: a queued bead without a metadata block fails on the first
    attempt without any execution. *)
Definition townBare : world :=
  mkWorld {[ "gt-y" := mkBead "Bare" "open" "" {[ LabelQueued ]} "no block" ]}
          ["gt-y"] None [] ∅.

Example quarantine :
  let o := failingDispatch true 0 0 false townBare in
  Dispatch.dispatched o = 0%nat /\
  labelsOf (Dispatch.after o) "gt-y" = {[ LabelDispatchFailed ]} /\
  descriptionOf (Dispatch.after o) "gt-y" = "no block"%string.
Proof. vm_compute. auto. Qed.

(** With the only worker slot taken nothing is selected. *)
Example no_free_slot :
  let busy := mkWorld (beads town1) (order town1) (queueState town1)
                      ["hq-mayor"; "gt-gastown-polecat-1"] (tracked town1) in
  dispatch true 0 1 false busy
  = Dispatch.mkOutcome [] 0
      (withStateFile busy (Some (mkQueueState false "" "" clock 0))).
Proof. vm_compute. reflexivity. Qed.

(** A dry run reports the candidate and changes nothing. *)
Example dry_run_changes_nothing :
  dispatch true 0 0 true town1 = Dispatch.mkOutcome ["gt-x"] 0 town1.
Proof. vm_compute. reflexivity. Qed.

End Scenario.
